(** * nSPOT: DX-cluster spots forwarded to a FlexRadio

    A shallow embedding of [main.go] (the variant that keeps the
    [spotIds] registry) and the properties of its spot lifecycle:
    band classification, QRT detection, add / update / remove of
    radio spots, and the local sweep of expired entries.

    Conventions of the embedding
    - Go strings are byte strings: [string] (a list of 8-bit [ascii]).
    - [float64] values are modelled by the number they denote: a
      rational, or one of NaN, +Inf, -Inf.  Rounding to binary64 is
      written out ([round64]); the sign of zero is not represented.
    - [time.Time] and [time.Duration] are integers (nanoseconds).
    - The radio ([flexclient.FlexClient]) is an arbitrary state machine
      answering each command with a [CmdResult]; every command and its
      answer is appended to a trace kept next to it.
    - [spotIds] is a finite map from [spotKey] to [spot]. *)

From Stdlib Require Import ZArith QArith Qabs Ascii String List Bool Lia.
From stdpp Require Import base option list strings pretty gmap fin_maps.

Local Open Scope string_scope.
Local Open Scope Z_scope.

(** ** float64 *)

Module Float64.

Inductive t : Type :=
| NaN
| Inf (neg : bool)
| Fin (q : Q).

Definition of_Z (z : Z) : t := Fin (inject_Z z).

(** Go's [x >= y] on float64: false as soon as one side is NaN. *)
Definition geb (x y : t) : bool :=
  match x, y with
  | NaN, _ | _, NaN => false
  | Inf false, _ => true
  | _, Inf true => true
  | Inf true, _ => false
  | _, Inf false => false
  | Fin a, Fin b => Qle_bool b a
  end.

(** [floor (log2 (a / d))] for positive [a] and [d]. *)
Definition ilog2 (a d : Z) : Z :=
  let e0 := Z.log2 a - Z.log2 d in
  if (d * 2 ^ Z.max 0 e0 <=? a * 2 ^ Z.max 0 (- e0)) then e0 else e0 - 1.

(** The binary64 number nearest to [q], ties to the even significand:
    53 significant bits, least exponent -1074 (subnormals), overflow
    to an infinity from 2^1024 on. *)
Definition round64 (q : Q) : t :=
  let n := Qnum q in
  let d := Zpos (Qden q) in
  if n =? 0 then Fin 0 else
  let a := Z.abs n in
  let ex := Z.max (ilog2 a d - 52) (-1074) in
  let num := a * 2 ^ Z.max 0 (- ex) in
  let den := d * 2 ^ Z.max 0 ex in
  let m := num / den in
  let r := num mod den in
  let m' := if (den <? 2 * r) || ((den =? 2 * r) && Z.odd m)
            then m + 1 else m in
  let v := Qred (Qmake (m' * 2 ^ Z.max 0 ex) (Z.to_pos (2 ^ Z.max 0 (- ex)))) in
  if Qle_bool (inject_Z (2 ^ 1024)) v then Inf (n <? 0)
  else Fin (if n <? 0 then Qopp v else v).

(** Go's [x / y]; a zero divisor is taken as +0. *)
Definition div (x y : t) : t :=
  match x, y with
  | NaN, _ | _, NaN => NaN
  | Inf _, Inf _ => NaN
  | Inf neg, Fin b => Inf (xorb neg (Qnum b <? 0))
  | Fin _, Inf _ => Fin 0
  | Fin a, Fin b =>
      if Qnum b =? 0
      then (if Qnum a =? 0 then NaN else Inf (Qnum a <? 0))
      else round64 (Qdiv a b)
  end.

End Float64.

Abbreviation float64 := Float64.t.

(** ** The band table and [getBand] *)

Record bandEdge : Type := BandEdge { minFreq : float64; name : string }.

Definition bandEdges : list bandEdge :=
  [ BandEdge (Float64.of_Z 0) "LFMF";
    BandEdge (Float64.of_Z 1800) "160m";
    BandEdge (Float64.of_Z 3500) "80m";
    BandEdge (Float64.of_Z 5000) "60m";
    BandEdge (Float64.of_Z 7000) "40m";
    BandEdge (Float64.of_Z 10000) "30m";
    BandEdge (Float64.of_Z 14000) "20m";
    BandEdge (Float64.of_Z 18000) "17m";
    BandEdge (Float64.of_Z 21000) "15m";
    BandEdge (Float64.of_Z 24890) "12m";
    BandEdge (Float64.of_Z 26000) "11m";
    BandEdge (Float64.of_Z 28000) "10m";
    BandEdge (Float64.of_Z 50000) "6m";
    BandEdge (Float64.of_Z 144000) "2m";
    BandEdge (Float64.of_Z 220000) "125cm";
    BandEdge (Float64.of_Z 420000) "70cm";
    BandEdge (Float64.of_Z 900000) "900M";
    BandEdge (Float64.of_Z 1240000) "1240M";
    BandEdge (Float64.of_Z 2300000) "microwave" ].

(** [edges[i]]; the index is in range wherever the loop reads it. *)
Definition edgeAt (edges : list bandEdge) (i : nat) : bandEdge :=
  nth i edges (BandEdge Float64.NaN "").

(** The loop [for i < len(edges)-1 && freq >= edges[i+1].minFreq { i++ }],
    started at [i]; [fuel] bounds the number of iterations. *)
Fixpoint getBand_loop (edges : list bandEdge) (freq : float64)
    (fuel i : nat) : nat :=
  match fuel with
  | O => i
  | S fuel' =>
      if (i <? length edges - 1)%nat
         && Float64.geb freq (minFreq (edgeAt edges (i + 1)))
      then getBand_loop edges freq fuel' (i + 1)
      else i
  end.

Definition getBand_index (freq : float64) : nat :=
  getBand_loop bandEdges freq (length bandEdges) 0.

Definition getBand (freq : float64) : string :=
  name (edgeAt bandEdges (getBand_index freq)).

(** ** strconv and fmt *)

Inductive NumError : Type := ErrSyntax | ErrRange.

Definition isDigit (c : ascii) : bool :=
  (48 <=? Z.of_N (N_of_ascii c)) && (Z.of_N (N_of_ascii c) <=? 57).

Definition digitVal (c : ascii) : Z := Z.of_N (N_of_ascii c) - 48.

(** [strconv.ParseUint(s, 10, 64)] on the characters after the sign:
    the first character that is not a digit is a syntax error, the first
    digit that takes the value past 2^64-1 a range error. *)
Fixpoint parseUint (s : list ascii) (n : Z) : Z + NumError :=
  match s with
  | [] => inl n
  | c :: s' =>
      if negb (isDigit c) then inr ErrSyntax
      else if 2 ^ 64 - 1 <? n * 10 + digitVal c then inr ErrRange
      else parseUint s' (n * 10 + digitVal c)
  end.

(** [strconv.Atoi] with a 64-bit [int]. *)
Definition Atoi (s : string) : Z + NumError :=
  let cs := list_ascii_of_string s in
  let '(neg, ds) :=
    match cs with
    | "+"%char :: ds => (false, ds)
    | "-"%char :: ds => (true, ds)
    | _ => (false, cs)
    end in
  match ds with
  | [] => inr ErrSyntax
  | _ =>
      match parseUint ds 0 with
      | inr e => inr e
      | inl un =>
          if negb neg && (2 ^ 63 <=? un) then inr ErrRange
          else if neg && (2 ^ 63 <? un) then inr ErrRange
          else inl (if neg then - un else un)
      end
  end.

(** The verb [%d]. *)
Definition fmt_d (z : Z) : string := pretty z.

(** Decimal digits with at most one point: the mantissa read as an
    integer, the number of digits after the point, whether a digit and
    whether a point was seen. *)
Fixpoint readDecimal (s : list ascii) (mant : Z) (frac : nat)
    (sawdigits sawdot : bool) : option (Z * nat) :=
  match s with
  | [] => if sawdigits then Some (mant, frac) else None
  | c :: s' =>
      if isDigit c then
        readDecimal s' (mant * 10 + digitVal c)
          (if sawdot then S frac else frac) true sawdot
      else if Ascii.eqb c "." && negb sawdot then
        readDecimal s' mant frac sawdigits true
      else None
  end.

(** [strconv.ParseFloat(s, 64)] on the texts the third group of
    [spotPattern] can hold, digits and points: the nearest binary64
    number, a syntax error without a digit or with a second point, a
    range error when the nearest number is infinite.  Signs, exponents,
    hexadecimal and the words inf and nan do not occur in such a text
    and are rejected here. *)
Definition ParseFloat (s : string) : float64 + NumError :=
  match readDecimal (list_ascii_of_string s) 0 0 false false with
  | None => inr ErrSyntax
  | Some (mant, frac) =>
      match Float64.round64 (Qmake mant (Z.to_pos (10 ^ Z.of_nat frac))) with
      | Float64.Fin q => inl (Float64.Fin q)
      | _ => inr ErrRange
      end
  end.

(** [q] rounded to an integer, ties to even, for [0 <= q]. *)
Definition roundHalfEven (q : Q) : Z :=
  let n := Qnum q in
  let d := Zpos (Qden q) in
  let m := n / d in
  let r := n mod d in
  if (d <? 2 * r) || ((d =? 2 * r) && Z.odd m) then m + 1 else m.

Fixpoint zeros (n : nat) : string :=
  match n with O => "" | S k => String "0" (zeros k) end.

(** [strconv.FormatFloat(x, 'f', prec, 64)], the verbs [%f] (prec 6) and
    [%.0f]: the exact value rounded to [prec] decimals, ties to even. *)
Definition formatFloat (prec : nat) (x : float64) : string :=
  match x with
  | Float64.NaN => "NaN"
  | Float64.Inf neg => if neg then "-Inf" else "+Inf"
  | Float64.Fin q =>
      let scaled := roundHalfEven (Qmult (Qabs q) (inject_Z (10 ^ Z.of_nat prec))) in
      let ip := pretty (scaled / 10 ^ Z.of_nat prec) in
      let fp := pretty (scaled mod 10 ^ Z.of_nat prec) in
      (if Qnum q <? 0 then "-" else "")
      +:+ ip
      +:+ match prec with
          | O => ""
          | _ => "." +:+ zeros (prec - String.length fp) +:+ fp
          end
  end.

Definition fmt_f (x : float64) : string := formatFloat 6 x.
Definition fmt_0f (x : float64) : string := formatFloat 0 x.

(** ** regexp

    The two patterns of [main] are sequences of repeated character
    classes, [^], [\b] and unnested groups.  [runWith] is the backtracking
    matcher for such sequences; Go's leftmost-first semantics is the
    first match a backtracking search finds, from the leftmost start. *)

Module Regexp.

Inductive atom : Type :=
| ABegin                                   (* ^ *)
| AWordB                                   (* \b *)
| AOpen                                    (* ( *)
| AClose                                   (* ) *)
| ARep (cls : ascii -> bool) (min : nat) (max : option nat) (greedy : bool).

Definition t : Type := list atom.

Definition code (c : ascii) : Z := Z.of_N (N_of_ascii c).

(** [\s] is [\t\n\f\r ]. *)
Definition isSpace (c : ascii) : bool :=
  (code c =? 9) || (code c =? 10) || (code c =? 12) || (code c =? 13)
  || (code c =? 32).

(** The word characters of [\b]: [0-9A-Za-z_]. *)
Definition isWord (c : ascii) : bool :=
  ((48 <=? code c) && (code c <=? 57))
  || ((65 <=? code c) && (code c <=? 90))
  || ((97 <=? code c) && (code c <=? 122))
  || (code c =? 95).

Definition isWordAt (c : option ascii) : bool :=
  match c with Some c => isWord c | None => false end.

Definition lit (c : ascii) : atom := ARep (Ascii.eqb c) 1 (Some 1%nat) true.

(** A letter under [(?i:...)]: either case. *)
Definition litFold (upper lower : ascii) : atom :=
  ARep (fun c => Ascii.eqb c upper || Ascii.eqb c lower) 1 (Some 1%nat) true.

Definition lits (s : string) : t := map lit (list_ascii_of_string s).

Definition below (n : nat) (max : option nat) : bool :=
  match max with Some m => (n <? m)%nat | None => true end.

(** The rest of a match: the character before the position, the
    position, the text from there on, the group boundaries met so far
    (latest first); the answer is the end of the match and all group
    boundaries. *)
Definition cont : Type :=
  option ascii -> nat -> list ascii -> list nat -> option (nat * list nat).

(** [cls{min,max}] after [n] repetitions, greedy (one more first) or
    lazy (the rest first). *)
Fixpoint rep (cls : ascii -> bool) (min : nat) (max : option nat)
    (greedy : bool) (k : cont) (n : nat) (prev : option ascii)
    (pos : nat) (s : list ascii) (caps : list nat) {struct s}
    : option (nat * list nat) :=
  let stop (_ : unit) :=
    if (min <=? n)%nat then k prev pos s caps else None in
  let more (_ : unit) :=
    match s with
    | c :: s' =>
        if cls c && below n max
        then rep cls min max greedy k (S n) (Some c) (S pos) s' caps
        else None
    | [] => None
    end in
  if greedy
  then match more tt with Some r => Some r | None => stop tt end
  else match stop tt with Some r => Some r | None => more tt end.

(** The atoms of [re] in turn, then [k]. *)
Fixpoint runWith (re : t) (k : cont) : cont :=
  match re with
  | [] => k
  | a :: re' =>
      match a with
      | ABegin => fun prev pos s caps =>
          if (pos =? 0)%nat then runWith re' k prev pos s caps else None
      | AWordB => fun prev pos s caps =>
          if xorb (isWordAt prev) (isWordAt (head s))
          then runWith re' k prev pos s caps else None
      | AOpen | AClose => fun prev pos s caps =>
          runWith re' k prev pos s (pos :: caps)
      | ARep cls min max greedy => rep cls min max greedy (runWith re' k) 0
      end
  end.

(** A match of [re] from a position: its end and the boundaries. *)
Definition run (re : t) : cont :=
  runWith re (fun _ pos _ caps => Some (pos, caps)).

(** The number of group boundaries of a pattern. *)
Fixpoint marks (re : t) : nat :=
  match re with
  | [] => 0
  | (AOpen | AClose) :: re' => S (marks re')
  | _ :: re' => marks re'
  end.

(** The leftmost start with a match. *)
Fixpoint search (re : t) (prev : option ascii) (pos : nat)
    (s : list ascii) : option (nat * (nat * list nat)) :=
  match run re prev pos s [] with
  | Some r => Some (pos, r)
  | None =>
      match s with
      | [] => None
      | c :: s' => search re (Some c) (S pos) s'
      end
  end.

Definition slice (s : list ascii) (i j : nat) : string :=
  string_of_list_ascii (take (j - i) (drop i s)).

(** Boundaries, earliest first, to the texts of the groups. *)
Fixpoint groups (s : list ascii) (bounds : list nat) : list string :=
  match bounds with
  | i :: j :: bounds' => slice s i j :: groups s bounds'
  | _ => []
  end.

Definition MatchString (re : t) (s : string) : bool :=
  bool_decide (is_Some (search re None 0 (list_ascii_of_string s))).

(** [nil] is [None]; otherwise the match and the groups' texts. *)
Definition FindStringSubmatch (re : t) (s : string) : option (list string) :=
  let cs := list_ascii_of_string s in
  match search re None 0 cs with
  | None => None
  | Some (i, (j, caps)) => Some (slice cs i j :: groups cs (rev caps))
  end.

End Regexp.

Import Regexp.

Definition isDigitOrDot (c : ascii) : bool := isDigit c || Ascii.eqb c ".".
Definition notSpace (c : ascii) : bool := negb (isSpace c).
Definition notNewline (c : ascii) : bool := negb (code c =? 10).

(** [spotPattern]: the text [^DX de ] and nine groups,
    1 [\S+?], 2 [:?\s*], 3 [[0-9.]+], 4 [\s+], 5 [\S+?], 6 [\s+],
    7 [.*?], 8 [\s*], 9 [[0-9]{4}Z]. *)
Definition spotPattern : Regexp.t :=
  ([ABegin] ++ lits "DX de "
  ++ [AOpen; ARep notSpace 1 None false; AClose;
      AOpen; ARep (Ascii.eqb ":") 0 (Some 1%nat) true;
             ARep isSpace 0 None true; AClose;
      AOpen; ARep isDigitOrDot 1 None true; AClose;
      AOpen; ARep isSpace 1 None true; AClose;
      AOpen; ARep notSpace 1 None false; AClose;
      AOpen; ARep isSpace 1 None true; AClose;
      AOpen; ARep notNewline 0 None false; AClose;
      AOpen; ARep isSpace 0 None true; AClose;
      AOpen; ARep isDigit 4 (Some 4%nat) true; lit "Z"; AClose])%list.

(** The part of [spotPattern] before its third group, and the part
    after it. *)
Definition spotPatternHead : Regexp.t :=
  ([ABegin] ++ lits "DX de "
   ++ [AOpen; ARep notSpace 1 None false; AClose;
       AOpen; ARep (Ascii.eqb ":") 0 (Some 1%nat) true;
              ARep isSpace 0 None true; AClose])%list.

Definition spotPatternTail : Regexp.t :=
  [AOpen; ARep isSpace 1 None true; AClose;
   AOpen; ARep notSpace 1 None false; AClose;
   AOpen; ARep isSpace 1 None true; AClose;
   AOpen; ARep notNewline 0 None false; AClose;
   AOpen; ARep isSpace 0 None true; AClose;
   AOpen; ARep isDigit 4 (Some 4%nat) true; lit "Z"; AClose].

(** [qrtPattern]: [\b], the letters Q, R, T in either case, [\b]. *)
Definition qrtPattern : Regexp.t :=
  [AWordB; litFold "Q" "q"; litFold "R" "r"; litFold "T" "t"; AWordB].

Definition promptSuffixes : list string := [">"; "> "; ":"; ": "].

(** ** strings *)

Definition hasPrefix (s p : list ascii) : bool :=
  bool_decide (take (length p) s = p).

(** [strings.ReplaceAll(s, old, new)] for a non-empty [old]. *)
Fixpoint replaceAll (fuel : nat) (s old new : list ascii) : list ascii :=
  match fuel with
  | O => s
  | S fuel' =>
      if hasPrefix s old
      then (new ++ replaceAll fuel' (drop (length old) s) old new)%list
      else match s with
           | [] => []
           | c :: s' => c :: replaceAll fuel' s' old new
           end
  end.

Definition ReplaceAll (s old new : string) : string :=
  let cs := list_ascii_of_string s in
  string_of_list_ascii
    (replaceAll (S (length cs)) cs (list_ascii_of_string old)
       (list_ascii_of_string new)).

Definition HasSuffix (s suffix : string) : bool :=
  let cs := list_ascii_of_string s in
  let xs := list_ascii_of_string suffix in
  bool_decide (length xs ≤ length cs)%nat
  && bool_decide (drop (length cs - length xs) cs = xs).

Definition TrimSuffix (s suffix : string) : string :=
  if HasSuffix s suffix
  then
    let cs := list_ascii_of_string s in
    string_of_list_ascii
      (take (length cs - String.length suffix) cs)
  else s.

(** The byte 0x7f, the placeholder for a space. *)
Definition del : string := String "127"%char EmptyString.

(** ** gookit/color, with colour output enabled *)

Inductive Color : Type :=
| FgYellow | FgMagenta | FgLightRed | FgLightGreen | FgLightBlue
| FgLightMagenta | FgLightCyan.

Definition colorCode (c : Color) : string :=
  match c with
  | FgYellow => "33"
  | FgMagenta => "35"
  | FgLightRed => "91"
  | FgLightGreen => "92"
  | FgLightBlue => "94"
  | FgLightMagenta => "95"
  | FgLightCyan => "96"
  end.

Definition esc : string := String "027"%char EmptyString.

Definition Render (c : Color) (s : string) : string :=
  esc +:+ "[" +:+ colorCode c +:+ "m" +:+ s +:+ esc +:+ "[0m".

(** ** Configuration, registry and the radio *)

Abbreviation Time := Z.
Abbreviation Duration := Z.

Definition Second : Duration := 1000000000.
Definition Minute : Duration := 60 * Second.

Record Config : Type := {
  RadioIP : string;
  Station : string;
  Callsign : string;
  ClusterServer : string;
  QRT : bool;
  OnePerBand : bool;
  Timeout : Duration
}.

(** The flag defaults of [init]. *)
Definition defaultConfig : Config := {|
  RadioIP := ":discover:";
  Station := "Flex";
  Callsign := "";
  ClusterServer := "";
  QRT := true;
  OnePerBand := true;
  Timeout := 5 * Minute
|}.

Definition SpotNotFoundError : Z := 0x500000BC.

Record spotKey : Type := SpotKey { freq : string; call : string }.

Record spot : Type := Spot { id : Z; expires : Time }.

#[global] Instance spotKey_eq_dec : EqDecision spotKey.
Proof. solve_decision. Defined.

#[global] Instance spotKey_countable : Countable spotKey :=
  inj_countable' (fun k => (freq k, call k)) (fun p => SpotKey p.1 p.2)
    (fun k => match k with SpotKey _ _ => eq_refl end).

#[global] Instance spot_eq_dec : EqDecision spot.
Proof. solve_decision. Defined.

(** [flexclient.CmdResult]: the error code (a uint32) and the message. *)
Record CmdResult : Type := { Error : Z; Message : string }.

(** A radio is anything that answers a command; the answer may depend on
    all that went before. *)
Class FlexClient (R : Type) : Type :=
  SendAndWait : R -> string -> CmdResult * R.

(** Radios used in examples: the answers are scripted, one per command;
    once the script is exhausted every command succeeds with an empty
    message. *)
#[global] Instance scriptedRadio : FlexClient (list CmdResult) :=
  fun script _ =>
    match script with
    | [] => ({| Error := 0; Message := "" |}, [])
    | r :: script' => (r, script')
    end.

(** What zerolog is asked to write at error level. *)
Inductive LogLine : Type :=
| LogErr (err : NumError)                 (* log.Error().Err(err).Send() *)
| LogErrMsg (err : NumError) (msg : string)  (* ....Err(err).Msg(msg) *)
| LogRPC (error : Z) (msg : string).      (* ....Uint32("error", e).Msg(m) *)

(** The globals [cfg] and [spotIds], the radio client, and what the
    program has emitted: the commands sent with their answers, the log,
    the lines printed to the console and the console prompt. *)
Record World (R : Type) : Type := {
  cfg : Config;
  spotIds : gmap spotKey spot;
  fc : R;
  rpcs : list (string * CmdResult);
  logs : list LogLine;
  stdout : list string;
  prompt : string
}.

Arguments cfg {R} _.
Arguments spotIds {R} _.
Arguments fc {R} _.
Arguments rpcs {R} _.
Arguments logs {R} _.
Arguments stdout {R} _.
Arguments prompt {R} _.

(** *** A state monad over the world *)

Definition Prog (R A : Type) : Type := World R -> A * World R.

#[global] Instance Prog_ret {R} : MRet (Prog R) := fun _ a w => (a, w).

#[global] Instance Prog_bind {R} : MBind (Prog R) :=
  fun _ _ k m w => let r := m w in k r.1 r.2.

Definition exec {R A} (p : Prog R A) (w : World R) : World R := (p w).2.

Definition getCfg {R} : Prog R Config := fun w => (cfg w, w).

Definition getSpotIds {R} : Prog R (gmap spotKey spot) :=
  fun w => (spotIds w, w).

Definition setSpotIds {R} (ids : gmap spotKey spot) : Prog R unit :=
  fun w =>
    (tt, {| cfg := cfg w; spotIds := ids; fc := fc w; rpcs := rpcs w;
            logs := logs w; stdout := stdout w; prompt := prompt w |}).

(** [fc.SendAndWait(cmd)]. *)
Definition sendAndWait {R} `{!FlexClient R} (cmd : string) : Prog R CmdResult :=
  fun w =>
    let r := SendAndWait (fc w) cmd in
    (r.1, {| cfg := cfg w; spotIds := spotIds w; fc := r.2;
             rpcs := (rpcs w ++ [(cmd, r.1)])%list;
             logs := logs w; stdout := stdout w; prompt := prompt w |}).

Definition logError {R} (l : LogLine) : Prog R unit :=
  fun w =>
    (tt, {| cfg := cfg w; spotIds := spotIds w; fc := fc w; rpcs := rpcs w;
            logs := (logs w ++ [l])%list; stdout := stdout w;
            prompt := prompt w |}).

(** [fmt.Fprintln(rl.Stdout(), s)]. *)
Definition println {R} (s : string) : Prog R unit :=
  fun w =>
    (tt, {| cfg := cfg w; spotIds := spotIds w; fc := fc w; rpcs := rpcs w;
            logs := logs w; stdout := (stdout w ++ [s])%list;
            prompt := prompt w |}).

(** [rl.SetPrompt(s); rl.Refresh()]. *)
Definition setPrompt {R} (s : string) : Prog R unit :=
  fun w =>
    (tt, {| cfg := cfg w; spotIds := spotIds w; fc := fc w; rpcs := rpcs w;
            logs := logs w; stdout := stdout w; prompt := s |}).

(** ** The program *)

Section Program.
Context {R : Type} `{!FlexClient R}.

(** [m[i]] for a match of [spotPattern], which has ten entries. *)
Definition idx (m : list string) (i : nat) : string := nth i m "".

Definition logToConsole (m : list string) (remove : bool) : Prog R unit :=
  let commentColor := if remove then FgLightRed else FgLightCyan in
  match ParseFloat (idx m 3) with
  | inr err => logError (LogErr err)
  | inl freqKhz =>
      println
        (Render FgLightGreen "DX de"
         +:+ " " +:+ Render FgYellow (idx m 1)
         +:+ idx m 2 +:+ Render FgLightBlue (idx m 3)
         +:+ idx m 4 +:+ Render FgMagenta (idx m 5)
         +:+ idx m 6 +:+ Render commentColor (idx m 7)
         +:+ idx m 8 +:+ idx m 9
         +:+ " " +:+ Render FgLightGreen (getBand freqKhz))
  end.

(** The text [fields] of [addSpot]. *)
Definition spotFields (c : Config) (spotCall : string) (freqKhz : float64)
    (dxCall comment : string) : string :=
  let lifetimeSecs := Z.quot (Timeout c) Second in
  "rx_freq=" +:+ fmt_f (Float64.div freqKhz (Float64.of_Z 1000))
  +:+ " callsign=" +:+ dxCall
  +:+ " spotter_callsign=" +:+ spotCall
  +:+ " comment=" +:+ comment
  +:+ " lifetime_seconds=" +:+ fmt_d lifetimeSecs.

(** [now] is the reading of [time.Now()]. *)
Definition addSpot (key : spotKey) (spotCall : string) (freqKhz : float64)
    (dxCall comment : string) (now : Time) : Prog R unit :=
  c ← getCfg;
  let fields := spotFields c spotCall freqKhz dxCall comment in
  ids ← getSpotIds;
  (* sp, existed := spotIds[key]: the zero spot when the key is absent *)
  let sp := default (Spot 0 0) (ids !! key) in
  let existed := bool_decide (is_Some (ids !! key)) in
  res ← (if existed
         then sendAndWait ("spot set " +:+ fmt_d (id sp) +:+ " " +:+ fields)
         else mret {| Error := 0; Message := "" |});
  res ← (if negb existed || (Error res =? SpotNotFoundError)
         then sendAndWait ("spot add " +:+ fields)
         else mret res);
  if negb (Error res =? 0)
  then logError (LogRPC (Error res) (Message res))
  else
    match (if negb existed then Atoi (Message res) else inl (id sp)) with
    | inr err => logError (LogErrMsg err "atoi")
    | inl sp_id => setSpotIds (<[key := Spot sp_id (now + Timeout c)]> ids)
    end.

Definition removeSpot (key : spotKey) : Prog R unit :=
  ids ← getSpotIds;
  match ids !! key with
  | Some sp =>
      res ← sendAndWait ("spot remove " +:+ fmt_d (id sp));
      if negb (Error res =? 0) && negb (Error res =? SpotNotFoundError)
      then logError (LogRPC (Error res) (Message res))
      else mret tt
  | None => mret tt
  end;;
  setSpotIds (delete key ids).

(** The range loop visits every entry once and deletes from the map it
    ranges over; [now] is the reading of [time.Now()]. *)
Definition cleanupSpots (now : Time) : Prog R unit :=
  ids ← getSpotIds;
  setSpotIds
    (map_fold (fun k v acc => if expires v <? now then delete k acc else acc)
       ids ids).

Definition sendToFlex (m : list string) (remove : bool) (now : Time)
    : Prog R unit :=
  let spotCall := idx m 1 in
  let freq := idx m 3 in
  let dxCall := idx m 5 in
  let comment := idx m 7 in
  match ParseFloat freq with
  | inr err => logError (LogErr err)
  | inl freqKhz =>
      c ← getCfg;
      let key :=
        if OnePerBand c
        then SpotKey (getBand freqKhz) dxCall
        else SpotKey (fmt_0f freqKhz) dxCall in
      (* the four results of ReplaceAll are dropped *)
      let _ := ReplaceAll spotCall " " del in
      let _ := ReplaceAll freq " " del in
      let _ := ReplaceAll dxCall " " del in
      let _ := ReplaceAll comment " " del in
      if remove
      then removeSpot key
      else addSpot key spotCall freqKhz dxCall comment now
  end.

(** The flag [remove] of the loop body:
    [cfg.QRT && qrtPattern.MatchString(m[7])]. *)
Definition removalRequested (c : Config) (m : list string) : bool :=
  QRT c && MatchString qrtPattern (idx m 7).

(** The loop over [promptSuffixes]; the answer is the flag [prompt]. *)
Fixpoint promptLoop (line : string) (suffixes : list string) : Prog R bool :=
  match suffixes with
  | [] => mret false
  | suffix :: suffixes' =>
      if HasSuffix line suffix
      then setPrompt (Render FgMagenta (TrimSuffix line suffix) +:+ "> ");;
           mret true
      else promptLoop line suffixes'
  end.

(** The body of the loop over the lines of the cluster connection in
    [main]; [nowAdd] and [nowSweep] are the readings of [time.Now()] in
    [addSpot] and in [cleanupSpots]. *)
Definition processLine (line : string) (nowAdd nowSweep : Time)
    : Prog R unit :=
  match FindStringSubmatch spotPattern line with
  | Some m =>
      c ← getCfg;
      let remove := removalRequested c m in
      logToConsole m remove;;
      sendToFlex m remove nowAdd;;
      cleanupSpots nowSweep
  | None =>
      isPrompt ← promptLoop line promptSuffixes;
      if negb isPrompt then println line else mret tt
  end.

(** The loop itself, over the lines read with their clock readings. *)
Fixpoint readLines (lines : list (string * Time * Time)) : Prog R unit :=
  match lines with
  | [] => mret tt
  | (line, nowAdd, nowSweep) :: lines' =>
      processLine line nowAdd nowSweep;;
      readLines lines'
  end.

End Program.

(** The world at the start of [main]: an empty registry, nothing emitted,
    the prompt "cluster> ". *)
Definition initWorld {R} (c : Config) (radio : R) : World R := {|
  cfg := c;
  spotIds := ∅;
  fc := radio;
  rpcs := [];
  logs := [];
  stdout := [];
  prompt := Render FgLightMagenta "cluster" +:+ "> "
|}.

(** ** Notions used to state the properties *)

(** The commands a program sends from [w], with their answers. *)
Definition issued {R A} (p : Prog R A) (w : World R)
    : list (string * CmdResult) :=
  drop (length (rpcs w)) (rpcs (p w).2).

(** One spot announcement as [addSpot] receives it, with the clock
    readings of [addSpot] and of the sweep that follows it in [main]. *)
Record spotEvent : Type := {
  ev_spotCall : string;
  ev_freqKhz : float64;
  ev_dxCall : string;
  ev_comment : string;
  ev_nowAdd : Time;
  ev_nowSweep : Time
}.

Definition addEvent {R} `{!FlexClient R} (key : spotKey) (ev : spotEvent)
    : Prog R unit :=
  addSpot key (ev_spotCall ev) (ev_freqKhz ev) (ev_dxCall ev)
    (ev_comment ev) (ev_nowAdd ev).

Definition eventFields {R} (w : World R) (ev : spotEvent) : string :=
  spotFields (cfg w) (ev_spotCall ev) (ev_freqKhz ev) (ev_dxCall ev)
    (ev_comment ev).

(** An event for [key] followed by the sweep, as the loop body does. *)
Definition handleEvent {R} `{!FlexClient R} (key : spotKey) (ev : spotEvent)
    : Prog R unit :=
  addEvent key ev;; cleanupSpots (ev_nowSweep ev).

(** The events of a sequence, each with the world it arrives in. *)
Fixpoint arrivals {R} `{!FlexClient R} (key : spotKey)
    (evs : list spotEvent) (w : World R) : list (World R * spotEvent) :=
  match evs with
  | [] => []
  | ev :: evs' => (w, ev) :: arrivals key evs' (exec (handleEvent key ev) w)
  end.

(** The answer of the radio in world [w] to [cmd]. *)
Definition answer {R} `{!FlexClient R} (w : World R) (cmd : string)
    : CmdResult :=
  (SendAndWait (fc w) cmd).1.

(** The world after the radio has answered [cmd]. *)
Definition answered {R} `{!FlexClient R} (w : World R) (cmd : string)
    : World R :=
  exec (sendAndWait cmd) w.

Definition toUpper (c : ascii) : ascii :=
  if (97 <=? code c) && (code c <=? 122)
  then ascii_of_N (Z.to_N (code c - 32))
  else c.

(** [s] holds [word] (given in upper case) in any case, with no word
    character right before or right after it. *)
Definition containsWord (word : string) (s : string) : Prop :=
  exists pre w post : list ascii,
    list_ascii_of_string s = (pre ++ w ++ post)%list
    /\ map toUpper w = list_ascii_of_string word
    /\ isWordAt (last pre) = false
    /\ isWordAt (head post) = false.

(** An edge whose threshold is at most [f], and no edge of the table
    with a greater threshold is. *)
Definition greatestEdgeBelow (f : float64) (e : bandEdge) : Prop :=
  e ∈ bandEdges
  /\ Float64.geb f (minFreq e) = true
  /\ forall e', e' ∈ bandEdges -> Float64.geb f (minFreq e') = true ->
       Float64.geb (minFreq e) (minFreq e') = true.

(** The thresholds of a table never decrease. *)
Definition ascending (edges : list bandEdge) : Prop :=
  forall i j, (i <= j < length edges)%nat ->
    Float64.geb (minFreq (edgeAt edges j)) (minFreq (edgeAt edges i)) = true.

Definition ok (msg : string) : CmdResult := {| Error := 0; Message := msg |}.
Definition failed (code : Z) : CmdResult := {| Error := code; Message := "" |}.

(** ** Worked inputs *)

Definition spotLine1 : string := "DX de K1ABC: 14025.0 W1XYZ CQ CQ DX 1234Z".
Definition spotLine2 : string := "DX de K1ABC: 14030.0 W1XYZ CQ 1235Z".
Definition qrtLine : string := "DX de K1ABC: 14030.0 W1XYZ going QRT 1236Z".

(** The match of [spotLine1]. *)
Definition spotMatch1 : list string :=
  [spotLine1; "K1ABC"; ": "; "14025.0"; " "; "W1XYZ"; " "; "CQ CQ DX"; " ";
   "1234Z"].

(** The match of [qrtLine]. *)
Definition qrtMatch : list string :=
  [qrtLine; "K1ABC"; ": "; "14030.0"; " "; "W1XYZ"; " "; "going QRT"; " ";
   "1236Z"].

(** A match whose frequency text has two points. *)
Definition badFreqMatch : list string :=
  ["DX de K1ABC: 14.025.0 W1XYZ CQ 1234Z"; "K1ABC"; ": "; "14.025.0"; " ";
   "W1XYZ"; " "; "CQ"; " "; "1234Z"].

Definition key20m : spotKey := SpotKey "20m" "W1XYZ".

Definition event1 : spotEvent := {|
  ev_spotCall := "K1ABC"; ev_freqKhz := Float64.of_Z 14025;
  ev_dxCall := "W1XYZ"; ev_comment := "CQ";
  ev_nowAdd := 100 * Second; ev_nowSweep := 101 * Second |}.

Definition event2 : spotEvent := {|
  ev_spotCall := "K1ABC"; ev_freqKhz := Float64.of_Z 14030;
  ev_dxCall := "W1XYZ"; ev_comment := "CQ";
  ev_nowAdd := 160 * Second; ev_nowSweep := 161 * Second |}.

Definition event3 : spotEvent := {|
  ev_spotCall := "N0CALL"; ev_freqKhz := Float64.of_Z 14200;
  ev_dxCall := "W1XYZ"; ev_comment := "59";
  ev_nowAdd := 220 * Second; ev_nowSweep := 221 * Second |}.

(** The radio accepts the add with id 7 and the updates after it. *)
Definition steadyWorld : World (list CmdResult) :=
  initWorld defaultConfig [ok "7"; ok ""; failed 5].

(** The radio accepts the add with id 7, has lost the spot by the time of
    the update, and accepts the second add with id 9. *)
Definition forgetfulWorld : World (list CmdResult) :=
  initWorld defaultConfig [ok "7"; failed SpotNotFoundError; ok "9"].

(** The radio refuses the first command with code 5. *)
Definition refusingWorld : World (list CmdResult) :=
  initWorld defaultConfig [failed 5].

(** The radio accepts the add with a message that is not a number. *)
Definition garbledWorld : World (list CmdResult) :=
  initWorld defaultConfig [ok "OK"; ok "8"].

(** A registry with one entry, expiring at 100 s. *)
Definition expiringWorld : World (list CmdResult) := {|
  cfg := defaultConfig;
  spotIds := {[ key20m := Spot 1 (100 * Second) ]};
  fc := [];
  rpcs := [];
  logs := [];
  stdout := [];
  prompt := ""
|}.

(** ** Further notions *)

(** The key that [sendToFlex] computes for a frequency and a call. *)
Definition keyOf (c : Config) (freqKhz : float64) (dxCall : string) : spotKey :=
  if OnePerBand c
  then SpotKey (getBand freqKhz) dxCall
  else SpotKey (fmt_0f freqKhz) dxCall.

(** Every id in the registry was handed out by the radio: it is the
    integer read from the message of a "spot add" answered with code 0. *)
Definition idsFromRadio {R} (w : World R) : Prop :=
  forall key sp,
    spotIds w !! key = Some sp ->
    exists cmd res,
      (cmd, res) ∈ rpcs w
      /\ (exists fields, cmd = "spot add " +:+ fields)
      /\ Error res = 0
      /\ Atoi (Message res) = inl (id sp).

(** A command is an add or an update. *)
Definition isAddOrSet (cmd : string) : Prop :=
  exists rest, cmd = "spot add " +:+ rest \/ cmd = "spot set " +:+ rest.

(** ** The variant without a registry

    The earlier [main.go] of the repository: every spot line is sent as
    a "spot add", and a QRT comment only changes the colour of the
    echo. *)

Module Legacy.
Section Program.
Context {R : Type} `{!FlexClient R}.

Definition logToConsole (m : list string) (remove : bool) : Prog R unit :=
  let commentColor := if remove then FgLightRed else FgLightCyan in
  println
    (Render FgLightGreen "SPOT" +:+ " "
     +:+ "DX de " +:+ Render FgYellow (idx m 1)
     +:+ idx m 2 +:+ Render FgLightBlue (idx m 3)
     +:+ idx m 4 +:+ Render FgMagenta (idx m 5)
     +:+ idx m 6 +:+ Render commentColor (idx m 7)
     +:+ idx m 8 +:+ idx m 9).

Definition sendToFlex (m : list string) (remove : bool) : Prog R unit :=
  let spotCall := idx m 1 in
  let freq := idx m 3 in
  let dxCall := idx m 5 in
  let comment := idx m 7 in
  match ParseFloat freq with
  | inr err => logError (LogErr err)
  | inl freqKhz =>
      (* the four results of ReplaceAll are dropped *)
      let _ := ReplaceAll spotCall " " del in
      let _ := ReplaceAll freq " " del in
      let _ := ReplaceAll dxCall " " del in
      let _ := ReplaceAll comment " " del in
      c ← getCfg;
      res ← sendAndWait
              ("spot add " +:+ spotFields c spotCall freqKhz dxCall comment);
      if negb (Error res =? 0)
      then logError (LogRPC (Error res) (Message res))
      else mret tt
  end.

(** The body of the loop over the lines of the cluster connection. *)
Definition processLine (line : string) : Prog R unit :=
  match FindStringSubmatch spotPattern line with
  | Some m =>
      c ← getCfg;
      let remove := removalRequested c m in
      logToConsole m remove;;
      sendToFlex m remove
  | None =>
      isPrompt ← promptLoop line promptSuffixes;
      if negb isPrompt then println line else mret tt
  end.

End Program.
End Legacy.

(** ** More worked inputs *)

(** The defaults with the QRT toggle off. *)
Definition noQrtConfig : Config := {|
  RadioIP := ":discover:";
  Station := "Flex";
  Callsign := "";
  ClusterServer := "";
  QRT := false;
  OnePerBand := true;
  Timeout := 5 * Minute
|}.

Definition noQrtWorld : World (list CmdResult) :=
  initWorld noQrtConfig [ok "7"].

Definition key40m : spotKey := SpotKey "40m" "W1XYZ".

Definition badFreqLine : string := "DX de K1ABC: 14.025.0 W1XYZ CQ 1234Z".

(** * Properties *)

(** ** float64 order *)

Lemma geb_trans (a b c : float64) :
  Float64.geb a b = true -> Float64.geb b c = true -> Float64.geb a c = true.
Proof.
  destruct a as [|[]|qa], b as [|[]|qb], c as [|[]|qc];
    simpl; try congruence.
  rewrite !Qle_bool_iff. intros H1 H2. exact (Qle_trans _ _ _ H2 H1).
Qed.

Lemma geb_below (f a b : float64) :
  Float64.geb f a = false -> Float64.geb b a = true -> Float64.geb f b = false.
Proof.
  intros Hfa Hba. destruct (Float64.geb f b) eqn:Hfb; [|done].
  by rewrite (geb_trans f b a Hfb Hba) in Hfa.
Qed.

(** ** The loop of [getBand] on any table with ascending thresholds *)

Section Loop.
Variable edges : list bandEdge.
Variable f : float64.

Lemma getBand_loop_spec (fuel i : nat) :
  (i < length edges)%nat ->
  (length edges - 1 - i <= fuel)%nat ->
  let r := getBand_loop edges f fuel i in
  (i <= r < length edges)%nat
  /\ (forall j, (i < j <= r)%nat ->
        Float64.geb f (minFreq (edgeAt edges j)) = true)
  /\ ((r + 1 < length edges)%nat ->
        Float64.geb f (minFreq (edgeAt edges (r + 1))) = false).
Proof.
  revert i. induction fuel as [|fuel IH]; intros i Hi Hfuel; simpl.
  - repeat split; intros; lia.
  - destruct (Nat.ltb_spec i (length edges - 1)) as [Hlt|Hge]; simpl.
    + destruct (Float64.geb f (minFreq (edgeAt edges (i + 1)))) eqn:Hge.
      * destruct (IH (i + 1)%nat) as (Hr & Hbelow & Hstop); [lia|lia|].
        split; [lia|]. split; [|exact Hstop].
        intros j Hj. destruct (decide (j = (i + 1)%nat)) as [->|Hne];
          [exact Hge | apply Hbelow; lia].
      * repeat split; intros; try lia. exact Hge.
    + repeat split; intros; lia.
Qed.

Hypothesis Hasc : ascending edges.
Hypothesis Hne : (0 < length edges)%nat.

Let r := getBand_loop edges f (length edges) 0.

Lemma getBand_loop_in_range : (r < length edges)%nat.
Proof.
  destruct (getBand_loop_spec (length edges) 0) as (H & _); [lia|lia|].
  unfold r. lia.
Qed.

(** Past the index returned, no threshold is at most [f]. *)
Lemma getBand_loop_above (j : nat) :
  (r < j < length edges)%nat ->
  Float64.geb f (minFreq (edgeAt edges j)) = false.
Proof.
  intros Hj.
  destruct (getBand_loop_spec (length edges) 0) as (_ & _ & Hstop);
    [lia|lia|].
  apply (geb_below f (minFreq (edgeAt edges (r + 1)))).
  - apply Hstop. unfold r in Hj. lia.
  - apply Hasc. unfold r in Hj |- *. lia.
Qed.

(** Up to the index returned, every threshold is at most [f], as soon
    as the first one is. *)
Lemma getBand_loop_below (j : nat) :
  Float64.geb f (minFreq (edgeAt edges 0)) = true ->
  (j <= r)%nat ->
  Float64.geb f (minFreq (edgeAt edges j)) = true.
Proof.
  intros H0 Hj.
  destruct (getBand_loop_spec (length edges) 0) as (_ & Hbelow & _);
    [lia|lia|].
  destruct j as [|j]; [exact H0|]. apply Hbelow. unfold r in Hj. lia.
Qed.

(** When the first threshold is not at most [f], none is, and the loop
    stays at the first edge. *)
Lemma getBand_loop_none :
  Float64.geb f (minFreq (edgeAt edges 0)) = false ->
  r = 0%nat
  /\ forall j, (j < length edges)%nat ->
       Float64.geb f (minFreq (edgeAt edges j)) = false.
Proof.
  intros H0.
  assert (Hall : forall j, (j < length edges)%nat ->
            Float64.geb f (minFreq (edgeAt edges j)) = false).
  { intros j Hj. apply (geb_below f (minFreq (edgeAt edges 0))); [done|].
    apply Hasc. lia. }
  split; [|exact Hall].
  destruct (getBand_loop_spec (length edges) 0) as (Hr & Hbelow & _);
    [lia|lia|].
  fold r in Hr, Hbelow.
  destruct r as [|r'] eqn:Er; [done|].
  specialize (Hbelow (S r') ltac:(lia)).
  rewrite Hall in Hbelow; [done | lia].
Qed.
End Loop.

Lemma edgeAt_elem (edges : list bandEdge) (e : bandEdge) :
  e ∈ edges -> exists j, (j < length edges)%nat /\ edgeAt edges j = e.
Proof.
  intros [j Hj]%list_elem_of_lookup. exists j. split.
  - by eapply lookup_lt_Some.
  - unfold edgeAt. by apply nth_lookup_Some.
Qed.

Lemma elem_edgeAt (edges : list bandEdge) (j : nat) :
  (j < length edges)%nat -> edgeAt edges j ∈ edges.
Proof.
  intros Hj. apply list_elem_of_lookup. exists j.
  destruct (lookup_lt_is_Some_2 edges j Hj) as [e He].
  unfold edgeAt. by rewrite (nth_lookup_Some _ _ _ _ He).
Qed.

Lemma bandEdges_ascending : ascending bandEdges.
Proof.
  assert (H : forallb (fun j => forallb (fun i =>
            negb (i <=? j)%nat
            || Float64.geb (minFreq (edgeAt bandEdges j))
                 (minFreq (edgeAt bandEdges i)))
            (seq 0 (length bandEdges))) (seq 0 (length bandEdges)) = true)
    by (vm_compute; reflexivity).
  intros i j Hij. rewrite forallb_forall in H.
  specialize (H j ltac:(apply in_seq; lia)). rewrite forallb_forall in H.
  specialize (H i ltac:(apply in_seq; lia)).
  destruct (Nat.leb_spec i j); [exact H | lia].
Qed.

(** Two edges of the table with thresholds at most each other are one edge. *)
Lemma bandEdges_antisym (i j : nat) :
  (i < length bandEdges)%nat -> (j < length bandEdges)%nat ->
  Float64.geb (minFreq (edgeAt bandEdges i)) (minFreq (edgeAt bandEdges j)) = true ->
  Float64.geb (minFreq (edgeAt bandEdges j)) (minFreq (edgeAt bandEdges i)) = true ->
  i = j.
Proof.
  assert (H : forallb (fun j => forallb (fun i =>
            negb (Float64.geb (minFreq (edgeAt bandEdges i))
                    (minFreq (edgeAt bandEdges j)))
            || negb (Float64.geb (minFreq (edgeAt bandEdges j))
                    (minFreq (edgeAt bandEdges i)))
            || (i =? j)%nat)
            (seq 0 (length bandEdges))) (seq 0 (length bandEdges)) = true)
    by (vm_compute; reflexivity).
  intros Hi Hj H1 H2. rewrite forallb_forall in H.
  specialize (H j ltac:(apply in_seq; lia)). rewrite forallb_forall in H.
  specialize (H i ltac:(apply in_seq; lia)).
  rewrite H1, H2 in H. simpl in H. by apply Nat.eqb_eq.
Qed.

(** C5. [getBand] never fails: for every frequency the index it reads is
    inside the table.  Its answer is the label of the one edge with the
    greatest threshold at most the frequency; when no threshold is at
    most the frequency (below the first edge, or NaN) it is the label
    of the first edge, "LFMF", and so it is at frequency 0. *)
Theorem getBand_greatest_threshold :
  forall f : float64,
    (getBand_index f < length bandEdges)%nat
    /\ ((exists e, greatestEdgeBelow f e
                   /\ getBand f = name e
                   /\ forall e', greatestEdgeBelow f e' -> e' = e)
        \/ ((forall e, e ∈ bandEdges -> Float64.geb f (minFreq e) = false)
            /\ getBand f = "LFMF"))
    /\ getBand (Float64.of_Z 0) = "LFMF"
    /\ (forall q : Q, (q < 0)%Q -> getBand (Float64.Fin q) = "LFMF").
Proof.
  intros f.
  assert (Hlen : (0 < length bandEdges)%nat) by (simpl; lia).
  pose proof (getBand_loop_in_range bandEdges f Hlen) as Hr.
  assert (Hcases : forall g : float64,
    (exists e, greatestEdgeBelow g e /\ getBand g = name e
               /\ forall e', greatestEdgeBelow g e' -> e' = e)
    \/ ((forall e, e ∈ bandEdges -> Float64.geb g (minFreq e) = false)
        /\ getBand g = "LFMF")).
  { intros g.
    pose proof (getBand_loop_in_range bandEdges g Hlen) as Hrg.
    destruct (Float64.geb g (minFreq (edgeAt bandEdges 0))) eqn:H0.
    - left. exists (edgeAt bandEdges (getBand_index g)).
      assert (Hg : greatestEdgeBelow g (edgeAt bandEdges (getBand_index g))).
      { split; [by apply elem_edgeAt|]. split.
        - by apply getBand_loop_below.
        - intros e' [j [Hj <-]]%edgeAt_elem Hle.
          apply bandEdges_ascending. split; [|exact Hrg].
          destruct (Nat.le_gt_cases j (getBand_index g)) as [|Hgt]; [done|].
          rewrite (getBand_loop_above bandEdges g bandEdges_ascending Hlen j) in Hle;
            [done | unfold getBand_index in Hgt; lia]. }
      split; [exact Hg|]. split; [done|].
      intros e' (Hin & Hle & Hmax).
      destruct (edgeAt_elem _ _ Hin) as [j [Hj <-]].
      f_equal. apply bandEdges_antisym; [done|done| |].
      + apply Hmax; [by apply elem_edgeAt | apply Hg].
      + destruct Hg as (_ & _ & Hmaxg). apply Hmaxg; [by apply elem_edgeAt|done].
    - right.
      destruct (getBand_loop_none bandEdges g bandEdges_ascending Hlen H0)
        as [Hz Hall].
      split.
      + intros e [j [Hj <-]]%edgeAt_elem. by apply Hall.
      + unfold getBand, getBand_index. by rewrite Hz. }
  split; [exact Hr|]. split; [apply Hcases|]. split.
  - vm_compute. reflexivity.
  - intros q Hq. destruct (Hcases (Float64.Fin q)) as [(e & Hg & _)|[_ H]];
      [|exact H].
    destruct Hg as (Hin & Hle & _). exfalso.
    assert (H0 : Float64.geb (Float64.Fin q) (minFreq (edgeAt bandEdges 0)) = true).
    { destruct (edgeAt_elem _ _ Hin) as [j [Hj <-]].
      eapply geb_trans; [exact Hle|]. apply bandEdges_ascending. lia. }
    simpl in H0. apply Qle_bool_iff in H0.
    apply (Qlt_not_le _ _ Hq). exact H0.
Qed.

(** At each threshold the band is the one that starts there, and just
    below it (by 0.001 kHz) the band before. *)
Lemma getBand_at_edges :
  map (fun e => getBand (minFreq e)) bandEdges = map name bandEdges.
Proof. vm_compute. reflexivity. Qed.

Lemma getBand_below_edges :
  map (fun z => getBand (Float64.Fin (inject_Z z - (1 # 1000))%Q))
    [1800; 3500; 5000; 7000; 10000; 14000; 18000; 21000; 24890; 26000;
     28000; 50000; 144000; 220000; 420000; 900000; 1240000; 2300000]
  = ["LFMF"; "160m"; "80m"; "60m"; "40m"; "30m"; "20m"; "17m"; "15m"; "12m";
     "11m"; "10m"; "6m"; "2m"; "125cm"; "70cm"; "900M"; "1240M"].
Proof. vm_compute. reflexivity. Qed.

(** ** The QRT pattern *)

(** A class repeated exactly once. *)
Lemma rep_once (cls : ascii -> bool) (k : cont) prev pos s caps :
  rep cls 1 (Some 1%nat) true k 0 prev pos s caps
  = match s with
    | c :: s' => if cls c then k (Some c) (S pos) s' caps else None
    | [] => None
    end.
Proof.
  destruct s as [|c s']; [done|]. cbn [rep below Nat.ltb Nat.leb].
  rewrite andb_true_r. destruct (cls c); [|done].
  destruct s' as [|c' s'']; cbn; rewrite ?andb_false_r;
    by destruct (k _ _ _ _).
Qed.

(** The character before the position reached after [c :: pre]. *)
Lemma last_cons_prev (c : ascii) (pre : list ascii) (prev : option ascii) :
  from_option Some prev (last (c :: pre))
  = from_option Some (Some c) (last pre).
Proof.
  destruct pre as [|c' pre]; [done|]. rewrite last_cons_cons.
  destruct (proj2 (last_is_Some (c' :: pre))) as [x ->]; done.
Qed.

(** [search] finds a match iff [run] succeeds at some split of the text. *)
Lemma search_is_Some (re : Regexp.t) (s : list ascii) prev pos :
  is_Some (search re prev pos s)
  <-> exists pre post,
        s = (pre ++ post)%list
        /\ is_Some (run re (from_option Some prev (last pre))
                      (pos + length pre)%nat post []).
Proof.
  revert prev pos. induction s as [|c s IH]; intros prev pos; cbn [search].
  - destruct (run re prev pos [] []) as [r|] eqn:Hr.
    + split; [|by eauto]. intros _. exists [], []. cbn.
      rewrite Nat.add_0_r, Hr. eauto.
    + split; [by intros [? ?]|].
      intros (pre & post & Hs & Hrun).
      symmetry in Hs. apply app_eq_nil in Hs as [-> ->].
      cbn in Hrun. rewrite Nat.add_0_r, Hr in Hrun. by destruct Hrun.
  - destruct (run re prev pos (c :: s) []) as [r|] eqn:Hr.
    + split; [|by eauto]. intros _. exists [], (c :: s). cbn.
      rewrite Nat.add_0_r, Hr. eauto.
    + rewrite IH. split.
      * intros (pre & post & -> & Hrun). exists (c :: pre), post.
        split; [done|]. cbn [length]. rewrite Nat.add_succ_r.
        by rewrite last_cons_prev.
      * intros (pre & post & Hs & Hrun). destruct pre as [|c' pre].
        { cbn in Hs, Hrun. subst post.
          rewrite Nat.add_0_r, Hr in Hrun. by destruct Hrun. }
        cbn in Hs. injection Hs as -> ->. exists pre, post.
        split; [done|]. cbn [length] in Hrun. rewrite Nat.add_succ_r in Hrun.
        by rewrite last_cons_prev in Hrun.
Qed.

(** A letter of the pattern against one character of the text. *)
Ltac fold_cases c :=
  destruct c as [[] [] [] [] [] [] [] []]; vm_compute;
  (split; [split|]); intros H; (reflexivity || discriminate H).

Lemma fold_Q c :
  (Ascii.eqb c "Q" || Ascii.eqb c "q" = true <-> toUpper c = "Q"%char)
  /\ (toUpper c = "Q"%char -> isWord c = true).
Proof. fold_cases c. Qed.

Lemma fold_R c :
  (Ascii.eqb c "R" || Ascii.eqb c "r" = true <-> toUpper c = "R"%char)
  /\ (toUpper c = "R"%char -> isWord c = true).
Proof. fold_cases c. Qed.

Lemma fold_T c :
  (Ascii.eqb c "T" || Ascii.eqb c "t" = true <-> toUpper c = "T"%char)
  /\ (toUpper c = "T"%char -> isWord c = true).
Proof. fold_cases c. Qed.

(** [run] on [qrtPattern], unfolded. *)
Lemma run_qrtPattern_eq prev pos (s : list ascii) caps :
  run qrtPattern prev pos s caps
  = if xorb (isWordAt prev) (isWordAt (head s))
    then match s with
         | q :: r :: t :: post =>
             if Ascii.eqb q "Q" || Ascii.eqb q "q" then
               if Ascii.eqb r "R" || Ascii.eqb r "r" then
                 if Ascii.eqb t "T" || Ascii.eqb t "t" then
                   if xorb (isWordAt (Some t)) (isWordAt (head post))
                   then Some (S (S (S pos)), caps) else None
                 else None
               else None
             else None
         | _ => None
         end
    else None.
Proof.
  unfold run, qrtPattern, litFold. cbn [runWith].
  destruct (xorb _ _); [|done].
  rewrite rep_once. destruct s as [|q s]; [done|].
  destruct (Ascii.eqb q "Q" || Ascii.eqb q "q"); [|by destruct s as [|? [|? ?]]].
  rewrite rep_once. destruct s as [|r s]; [done|].
  destruct (Ascii.eqb r "R" || Ascii.eqb r "r"); [|by destruct s].
  rewrite rep_once. destruct s as [|t s]; [done|].
  by destruct (Ascii.eqb t "T" || Ascii.eqb t "t").
Qed.

(** [qrtPattern] matches at a position iff the three letters follow, in
    any case, between two places that are not word characters. *)
Lemma run_qrtPattern prev pos (s : list ascii) caps :
  is_Some (run qrtPattern prev pos s caps)
  <-> exists w post,
        s = (w ++ post)%list
        /\ map toUpper w = list_ascii_of_string "QRT"
        /\ isWordAt prev = false
        /\ isWordAt (head post) = false.
Proof.
  rewrite run_qrtPattern_eq. split.
  - destruct (xorb _ _) eqn:Hb1; [|by intros [? ?]].
    destruct s as [|q [|r [|t post]]]; try (by intros [? ?]).
    destruct (Ascii.eqb q "Q" || Ascii.eqb q "q") eqn:Hq; [|by intros [? ?]].
    destruct (Ascii.eqb r "R" || Ascii.eqb r "r") eqn:Hr; [|by intros [? ?]].
    destruct (Ascii.eqb t "T" || Ascii.eqb t "t") eqn:Ht; [|by intros [? ?]].
    destruct (xorb (isWordAt (Some t)) _) eqn:Hb2; [|by intros [? ?]].
    intros _. apply fold_Q in Hq. apply fold_R in Hr. apply fold_T in Ht.
    exists [q; r; t], post. split; [done|]. split; [cbn; congruence|].
    cbn [head isWordAt] in Hb1, Hb2.
    rewrite (proj2 (fold_Q q) Hq) in Hb1. rewrite (proj2 (fold_T t) Ht) in Hb2.
    split; [by destruct (isWordAt prev) | by destruct (isWordAt (head post))].
  - intros (w & post & -> & Hw & Hprev & Hpost).
    destruct w as [|q [|r [|t [|? ?]]]]; try discriminate Hw.
    cbn in Hw. injection Hw as Hq Hr Ht.
    cbn [app head isWordAt].
    rewrite Hprev, (proj2 (fold_Q q) Hq). cbn [xorb].
    rewrite (proj2 (proj1 (fold_Q q)) Hq), (proj2 (proj1 (fold_R r)) Hr),
      (proj2 (proj1 (fold_T t)) Ht).
    rewrite (proj2 (fold_T t) Ht), Hpost. cbn. eauto.
Qed.

Lemma MatchString_qrtPattern (s : string) :
  MatchString qrtPattern s = true <-> containsWord "QRT" s.
Proof.
  unfold MatchString, containsWord. rewrite bool_decide_eq_true.
  rewrite search_is_Some. split.
  - intros (pre & rest & Hs & Hrun).
    apply run_qrtPattern in Hrun as (w & post & -> & Hw & Hprev & Hpost).
    exists pre, w, post. repeat split; try done.
    by destruct (last pre).
  - intros (pre & w & post & Hs & Hw & Hprev & Hpost).
    exists pre, (w ++ post)%list. split; [done|].
    apply run_qrtPattern. exists w, post. repeat split; try done.
    by destruct (last pre).
Qed.

(** C6. For every line that [spotPattern] matches, with the QRT toggle
    on, the flag [remove] is set iff the comment [m[7]] holds the
    letters QRT, in any case, with no word character (letter, digit or
    underscore) right before or right after them.  The comments "QRT",
    "qrt" and "Qrt" set it; "QRTY" and "SQRT" do not. *)
Theorem qrt_whole_word_removal :
  forall (c : Config) (line : string) (m : list string),
    FindStringSubmatch spotPattern line = Some m ->
    QRT c = true ->
    (removalRequested c m = true <-> containsWord "QRT" (idx m 7))
    /\ map (MatchString qrtPattern) ["QRT"; "qrt"; "Qrt"; "QRTY"; "SQRT"]
       = [true; true; true; false; false].
Proof.
  intros c line m _ Hq. split; [|by vm_compute].
  unfold removalRequested. rewrite Hq. cbn [andb].
  apply MatchString_qrtPattern.
Qed.

(** ** The groups of a spot line *)

(** A repetition consumes characters of its class and goes on. *)
Lemma rep_sound (cls : ascii -> bool) (min : nat) (max : option nat)
    (greedy : bool) (k : cont) (s : list ascii) :
  forall n prev pos caps r,
    rep cls min max greedy k n prev pos s caps = Some r ->
    exists taken rest prev',
      s = (taken ++ rest)%list
      /\ forallb cls taken = true
      /\ k prev' (pos + length taken)%nat rest caps = Some r.
Proof.
  induction s as [|c s IH]; intros n prev pos caps r.
  - cbn. intros H. exists [], [], prev. cbn. rewrite Nat.add_0_r.
    destruct greedy, (min <=? n)%nat; try discriminate H;
      destruct (k prev pos [] caps); by simplify_eq.
  - cbn [rep]. intros H.
    assert (Hstop : (if (min <=? n)%nat then k prev pos (c :: s) caps else None)
                    = Some r ->
            exists taken rest prev',
              c :: s = (taken ++ rest)%list /\ forallb cls taken = true
              /\ k prev' (pos + length taken)%nat rest caps = Some r).
    { intros Hk. destruct (min <=? n)%nat; [|done].
      exists [], (c :: s), prev. cbn. by rewrite Nat.add_0_r. }
    assert (Hmore : (if cls c && below n max
                     then rep cls min max greedy k (S n) (Some c) (S pos) s caps
                     else None) = Some r ->
            exists taken rest prev',
              c :: s = (taken ++ rest)%list /\ forallb cls taken = true
              /\ k prev' (pos + length taken)%nat rest caps = Some r).
    { intros Hk. destruct (cls c) eqn:Hc; [|done].
      destruct (below n max); [|done]. cbn [andb] in Hk.
      apply IH in Hk as (taken & rest & prev' & -> & Hall & Hk).
      exists (c :: taken), rest, prev'. cbn. rewrite Hc, Hall.
      by rewrite <- Nat.add_succ_comm. }
    destruct greedy.
    + destruct (if cls c && below n max then _ else _) as [r'|] eqn:Hm.
      * apply Hmore. by rewrite H.
      * by apply Hstop.
    + destruct (if (min <=? n)%nat then _ else _) as [r'|] eqn:Hs.
      * apply Hstop. by rewrite H.
      * by apply Hmore.
Qed.

(** A pattern consumes a prefix of the text, records one boundary for
    each of its marks on top of those it was given, and goes on. *)
Lemma runWith_sound (re : Regexp.t) (k : cont) :
  forall prev pos s caps r,
    runWith re k prev pos s caps = Some r ->
    exists taken rest prev' new,
      s = (taken ++ rest)%list
      /\ length new = marks re
      /\ k prev' (pos + length taken)%nat rest (new ++ caps)%list = Some r.
Proof.
  induction re as [|a re IH]; intros prev pos s caps r; cbn [runWith marks].
  - intros H. exists [], s, prev, []. cbn. by rewrite Nat.add_0_r.
  - destruct a as [| | | |cls min max greedy].
    + destruct (pos =? 0)%nat; [apply IH | done].
    + destruct (xorb _ _); [apply IH | done].
    + intros (taken & rest & prev' & new & -> & Hlen & Hk)%IH.
      exists taken, rest, prev', (new ++ [pos])%list.
      rewrite length_app, <- app_assoc. cbn. split; [done|]. split; [lia|done].
    + intros (taken & rest & prev' & new & -> & Hlen & Hk)%IH.
      exists taken, rest, prev', (new ++ [pos])%list.
      rewrite length_app, <- app_assoc. cbn. split; [done|]. split; [lia|done].
    + intros (taken1 & rest1 & prev1 & -> & _ & Hk)%rep_sound.
      apply IH in Hk as (taken2 & rest2 & prev2 & new & -> & Hlen & Hk).
      exists (taken1 ++ taken2)%list, rest2, prev2, new.
      rewrite length_app, Nat.add_assoc, <- app_assoc. done.
Qed.

Lemma runWith_app (re1 re2 : Regexp.t) (k : cont) :
  runWith (re1 ++ re2)%list k = runWith re1 (runWith re2 k).
Proof.
  induction re1 as [|a re1 IH]; [done|]. cbn [app runWith].
  by rewrite IH.
Qed.

(** A pattern that starts with [^] only matches from position 0. *)
Lemma search_begin (re : Regexp.t) (s : list ascii) :
  forall prev pos i r,
    search (ABegin :: re) prev pos s = Some (i, r) ->
    pos = 0%nat /\ i = 0%nat /\ run (ABegin :: re) prev 0%nat s [] = Some r.
Proof.
  induction s as [|c s IH]; intros prev pos i r; cbn [search].
  - destruct (run (ABegin :: re) prev pos [] []) as [r'|] eqn:Hr; [|done].
    intros [= <- <-]. unfold run in Hr |- *. cbn [runWith] in Hr |- *.
    destruct (Nat.eqb_spec pos 0) as [->|]; done.
  - destruct (run (ABegin :: re) prev pos (c :: s) []) as [r'|] eqn:Hr.
    + intros [= <- <-]. unfold run in Hr |- *. cbn [runWith] in Hr |- *.
      destruct (Nat.eqb_spec pos 0) as [->|]; done.
    + intros [? _]%IH. lia.
Qed.

(** Every match of [spotPattern] has the ten entries that [sendToFlex]
    and [logToConsole] read, and its third group, the frequency text, is
    made of digits and points: the texts [ParseFloat] is modelled on. *)
Lemma spotPattern_match_shape (line : string) (m : list string) :
  FindStringSubmatch spotPattern line = Some m ->
  length m = 10%nat
  /\ forallb isDigitOrDot (list_ascii_of_string (idx m 3)) = true.
Proof.
  unfold FindStringSubmatch.
  set (cs := list_ascii_of_string line).
  destruct (search spotPattern None 0 cs) as [[i [j caps]]|] eqn:Hs; [|done].
  intros [= <-].
  apply search_begin in Hs as (_ & -> & Hrun).
  change (ABegin :: _) with
    (spotPatternHead
     ++ [AOpen; ARep isDigitOrDot 1 None true; AClose] ++ spotPatternTail)%list
    in Hrun.
  unfold run in Hrun. rewrite runWith_app in Hrun.
  apply runWith_sound in Hrun
    as (takenA & restA & prevA & newA & HcsA & HlenA & Hrun).
  cbn [app runWith] in Hrun.
  apply rep_sound in Hrun as (taken3 & rest3 & prev3 & -> & Hall & Hrun).
  apply runWith_sound in Hrun
    as (takenB & restB & prevB & newB & -> & HlenB & Hrun).
  injection Hrun as <- <-.
  change (marks spotPatternHead) with 4%nat in HlenA.
  change (marks spotPatternTail) with 12%nat in HlenB.
  do 5 (destruct newA as [|? newA]; try discriminate HlenA).
  do 13 (destruct newB as [|? newB]; try discriminate HlenB).
  split; [reflexivity|].
  cbn [app rev groups idx nth length Nat.add].
  unfold slice. rewrite HcsA.
  replace (length takenA + length taken3 - length takenA)%nat
    with (length taken3) by lia.
  rewrite drop_app_length, take_app_length.
  by rewrite list_ascii_of_string_of_list_ascii.
Qed.

(** ** The registry operations *)

(** Unfold the monad and its primitives. *)
Ltac prog_unfold :=
  unfold exec, issued, answered, answer, mbind, Prog_bind, mret, Prog_ret,
    getCfg, getSpotIds, setSpotIds, sendAndWait, logError, println,
    setPrompt in *.

Ltac prog_simpl := prog_unfold; cbn [fst snd cfg spotIds fc rpcs logs stdout prompt] in *.

(** Case analysis on a comparison with [b] in the goal or in [Hin]. *)
Ltac case_eqb b :=
  match goal with
  | |- context [Z.eqb ?a b] => destruct (Z.eqb_spec a b)
  | _ : context [Z.eqb ?a b] |- _ => destruct (Z.eqb_spec a b)
  end.

Section Registry.
Context {R : Type} `{!FlexClient R}.
Implicit Types (w : World R) (key : spotKey).

(** C4. [removeSpot] leaves the registry without the key, whatever the
    radio answers.  When the key was present, exactly one command is
    sent, "spot remove" with the stored id, and its answer is logged
    unless the code is 0 or the not-found code; when the key was
    absent nothing is sent and nothing is logged. *)
Theorem removeSpot_deletes_entry :
  forall w key,
    let w' := exec (removeSpot key) w in
    spotIds w' = delete key (spotIds w)
    /\ match spotIds w !! key with
       | Some sp =>
           let cmd := "spot remove " +:+ fmt_d (id sp) in
           let res := answer w cmd in
           rpcs w' = (rpcs w ++ [(cmd, res)])%list
           /\ logs w' =
              (logs w ++
               if bool_decide (Error res = 0 \/ Error res = SpotNotFoundError)
               then []
               else [LogRPC (Error res) (Message res)])%list
       | None => rpcs w' = rpcs w /\ logs w' = logs w
       end.
Proof.
  intros w key. unfold removeSpot. prog_simpl.
  destruct (spotIds w !! key) as [sp|] eqn:Hk; prog_simpl; [|done].
  destruct (SendAndWait (fc w) ("spot remove " +:+ fmt_d (id sp)))
    as [res radio] eqn:Hres; cbn [fst snd].
  split; [done|].
  destruct (Z.eqb_spec (Error res) 0) as [H0|H0];
    destruct (Z.eqb_spec (Error res) SpotNotFoundError) as [Hnf|Hnf];
    cbn [negb andb snd rpcs logs];
    (split; [done|]);
    case_bool_decide as Hd; rewrite ?app_nil_r; try done; tauto.
Qed.

(** What the range loop of [cleanupSpots] leaves of a map [m] in a map
    [b]: the entries of [b] but those whose key has an expired entry
    in [m]. *)
Lemma cleanup_fold_lookup (now : Time) (b m : gmap spotKey spot) key :
  map_fold (fun k v acc => if expires v <? now then delete k acc else acc)
    b m !! key
  = match m !! key with
    | Some v => if expires v <? now then None else b !! key
    | None => b !! key
    end.
Proof.
  revert key.
  apply (map_fold_weak_ind (fun r m => forall key,
    r !! key = match m !! key with
               | Some v => if expires v <? now then None else b !! key
               | None => b !! key
               end)).
  - intros key. by rewrite lookup_empty.
  - intros i x m' r Hi IH key.
    destruct (decide (i = key)) as [->|Hne].
    + rewrite lookup_insert_eq.
      destruct (expires x <? now); [by rewrite lookup_delete_eq|].
      rewrite IH, Hi. done.
    + rewrite lookup_insert_ne by done.
      destruct (expires x <? now); [rewrite lookup_delete_ne by done|];
        apply IH.
Qed.

Lemma cleanupSpots_lookup w (now : Time) key :
  spotIds (exec (cleanupSpots now) w) !! key
  = match spotIds w !! key with
    | Some v => if expires v <? now then None else Some v
    | None => None
    end.
Proof.
  unfold cleanupSpots. prog_simpl. rewrite cleanup_fold_lookup.
  destruct (spotIds w !! key) as [v|] eqn:Hk; by rewrite ?Hk.
Qed.

Lemma cleanupSpots_frame w (now : Time) :
  let w' := exec (cleanupSpots now) w in
  cfg w' = cfg w /\ fc w' = fc w /\ rpcs w' = rpcs w /\ logs w' = logs w
  /\ stdout w' = stdout w /\ prompt w' = prompt w.
Proof. unfold cleanupSpots. prog_simpl. done. Qed.

(** C3, as the code has it.  [cleanupSpots] removes exactly the
    entries that expire strictly before [now]: each of them is absent
    afterwards, every entry that expires at [now] or later is kept as
    it was, no key appears; no command is sent to the radio. *)
Theorem cleanupSpots_removes_expired :
  forall w (now : Time),
    let w' := exec (cleanupSpots now) w in
    (forall key v, spotIds w !! key = Some v -> expires v < now ->
                   spotIds w' !! key = None)
    /\ (forall key v, spotIds w !! key = Some v -> now <= expires v ->
                      spotIds w' !! key = Some v)
    /\ (forall key, spotIds w !! key = None -> spotIds w' !! key = None)
    /\ issued (cleanupSpots now) w = []
    /\ fc w' = fc w.
Proof.
  intros w now w'. subst w'. repeat split.
  - intros key v Hk Hlt. rewrite cleanupSpots_lookup, Hk.
    destruct (Z.ltb_spec (expires v) now); [done|lia].
  - intros key v Hk Hge. rewrite cleanupSpots_lookup, Hk.
    destruct (Z.ltb_spec (expires v) now); [lia|done].
  - intros key Hk. by rewrite cleanupSpots_lookup, Hk.
  - unfold issued. fold (exec (cleanupSpots now) w).
    destruct (cleanupSpots_frame w now) as (_ & _ & -> & _).
    by rewrite drop_all.
Qed.

End Registry.

(** ** [addSpot] case by case *)

Section AddSpot.
Context {R : Type} `{!FlexClient R}.
Implicit Types (w : World R) (key : spotKey).

Lemma drop_issued {A} (l l' : list A) : drop (length l) (l ++ l') = l'.
Proof. by rewrite drop_app_length. Qed.

(** The key is absent: one "spot add"; the entry is written when the
    add is answered with code 0 and a message that [Atoi] reads. *)
Lemma addSpot_absent w key spotCall freqKhz dxCall comment (now : Time) :
  spotIds w !! key = None ->
  let p := addSpot key spotCall freqKhz dxCall comment now in
  let cmd := "spot add " +:+ spotFields (cfg w) spotCall freqKhz dxCall comment in
  let res := answer w cmd in
  issued p w = [(cmd, res)]
  /\ cfg (exec p w) = cfg w
  /\ spotIds (exec p w) =
     (if Error res =? 0
      then match Atoi (Message res) with
           | inl n => <[key := Spot n (now + Timeout (cfg w))]> (spotIds w)
           | inr _ => spotIds w
           end
      else spotIds w).
Proof.
  intros Hk p cmd res. subst p cmd res. unfold addSpot. prog_simpl.
  rewrite Hk. rewrite bool_decide_eq_false_2 by (by intros [? ?]).
  cbn [negb orb]. prog_simpl.
  set (cmd := "spot add " +:+ _).
  destruct (SendAndWait (fc w) cmd) as [res radio]; cbn [fst snd].
  destruct (Z.eqb_spec (Error res) 0) as [H0|H0]; cbn [negb].
  - destruct (Atoi (Message res)) as [n|e]; prog_simpl;
      by rewrite drop_issued.
  - prog_simpl. by rewrite drop_issued.
Qed.

(** The key is present: a "spot set" with the stored id, then a
    "spot add" when the set is answered not-found; the entry is
    rewritten, with the stored id, when the last answer has code 0. *)
Lemma addSpot_present w key spotCall freqKhz dxCall comment (now : Time) sp :
  spotIds w !! key = Some sp ->
  let p := addSpot key spotCall freqKhz dxCall comment now in
  let fields := spotFields (cfg w) spotCall freqKhz dxCall comment in
  let set := "spot set " +:+ fmt_d (id sp) +:+ " " +:+ fields in
  let add := "spot add " +:+ fields in
  let r1 := answer w set in
  let r2 := answer (answered w set) add in
  issued p w =
    (set, r1) :: (if Error r1 =? SpotNotFoundError then [(add, r2)] else [])
  /\ cfg (exec p w) = cfg w
  /\ spotIds (exec p w) =
     (if Error (if Error r1 =? SpotNotFoundError then r2 else r1) =? 0
      then <[key := Spot (id sp) (now + Timeout (cfg w))]> (spotIds w)
      else spotIds w).
Proof.
  intros Hk p fields set add r1 r2. subst p fields set add r1 r2.
  unfold addSpot. prog_simpl.
  rewrite Hk. rewrite bool_decide_eq_true_2 by eauto.
  cbn [negb orb default id]. prog_simpl.
  set (set := "spot set " +:+ _). set (add := "spot add " +:+ _).
  destruct (SendAndWait (fc w) set) as [r1 radio1]; cbn [fst snd].
  destruct (Z.eqb_spec (Error r1) SpotNotFoundError) as [Hnf|Hnf].
  - prog_simpl.
    destruct (SendAndWait radio1 add) as [r2 radio2]; cbn [fst snd].
    destruct (Z.eqb_spec (Error r2) 0) as [H0|H0]; cbn [negb]; prog_simpl;
      by rewrite <- app_assoc, drop_issued.
  - prog_simpl.
    destruct (Z.eqb_spec (Error r1) 0) as [H0|H0]; cbn [negb]; prog_simpl;
      by rewrite drop_issued.
Qed.

End AddSpot.

(** ** Events and lines *)

Section Events.
Context {R : Type} `{!FlexClient R}.
Implicit Types (w : World R) (key : spotKey).

Lemma exec_bind {A B} (p : Prog R A) (k : A -> Prog R B) w :
  exec (p ≫= k) w = exec (k (p w).1) (p w).2.
Proof. reflexivity. Qed.

Lemma handleEvent_lookup w key ev k :
  spotIds (exec (handleEvent key ev) w) !! k
  = match spotIds (exec (addEvent key ev) w) !! k with
    | Some v => if expires v <? ev_nowSweep ev then None else Some v
    | None => None
    end.
Proof. unfold handleEvent. rewrite exec_bind. apply cleanupSpots_lookup. Qed.

Lemma handleEvent_cfg w key ev :
  cfg (exec (handleEvent key ev) w) = cfg (exec (addEvent key ev) w).
Proof. unfold handleEvent. rewrite exec_bind. apply cleanupSpots_frame. Qed.

(** The key computed by [sendToFlex]. *)
Lemma sendToFlex_add w m (now : Time) freqKhz :
  ParseFloat (idx m 3) = inl freqKhz ->
  sendToFlex m false now w
  = addSpot
      (if OnePerBand (cfg w)
       then SpotKey (getBand freqKhz) (idx m 5)
       else SpotKey (fmt_0f freqKhz) (idx m 5))
      (idx m 1) freqKhz (idx m 5) (idx m 7) now w.
Proof. intros Hp. unfold sendToFlex. rewrite Hp. reflexivity. Qed.

(** C8. An event whose processing fails leaves the registry as it was.
    For every line that [spotPattern] matches: when the frequency text
    does not parse, and when, for an event that is not a removal, one
    of the commands sent is answered with a code other than 0 and
    other than the not-found code, [sendToFlex] changes no entry. *)
Theorem failed_event_keeps_registry :
  forall w (line : string) (m : list string) (remove : bool) (now : Time),
    FindStringSubmatch spotPattern line = Some m ->
    ((exists err, ParseFloat (idx m 3) = inr err)
     \/ (remove = false
         /\ exists cmd res,
              (cmd, res) ∈ issued (sendToFlex m remove now) w
              /\ Error res <> 0 /\ Error res <> SpotNotFoundError)) ->
    spotIds (exec (sendToFlex m remove now) w) = spotIds w.
Proof.
  intros w line m remove now _ Hfail.
  destruct (ParseFloat (idx m 3)) as [freqKhz|err] eqn:Hp.
  - destruct Hfail as [[err Herr]|(-> & cmd & res & Hin & H0 & Hnf)];
      [done|].
    unfold issued, exec in *. rewrite (sendToFlex_add _ _ _ _ Hp) in *.
    set (key := if OnePerBand (cfg w) then _ else _) in *.
    destruct (spotIds w !! key) as [sp|] eqn:Hk.
    + destruct (addSpot_present w key (idx m 1) freqKhz (idx m 5) (idx m 7)
                  now sp Hk) as (Hiss & _ & Hids).
      unfold issued, exec in Hiss, Hids. rewrite Hiss in Hin. rewrite Hids.
      apply elem_of_cons in Hin as [[= -> ->]|Hin].
      * case_eqb SpotNotFoundError; [done|]. by case_eqb 0.
      * case_eqb SpotNotFoundError; [|by apply elem_of_nil in Hin].
        apply list_elem_of_singleton in Hin as [= -> ->]. by case_eqb 0.
    + destruct (addSpot_absent w key (idx m 1) freqKhz (idx m 5) (idx m 7)
                  now Hk) as (Hiss & _ & Hids).
      unfold issued, exec in Hiss, Hids. rewrite Hiss in Hin. rewrite Hids.
      apply list_elem_of_singleton in Hin as [= -> ->]. by case_eqb 0.
  - unfold sendToFlex. rewrite Hp. reflexivity.
Qed.

(** In [main] the sweep follows: after a line whose frequency text does
    not parse, the registry is the prior one swept, and nothing was
    sent. *)
Lemma processLine_parse_failure w (line : string) (m : list string)
    (nowAdd nowSweep : Time) (err : NumError) :
  FindStringSubmatch spotPattern line = Some m ->
  ParseFloat (idx m 3) = inr err ->
  spotIds (exec (processLine line nowAdd nowSweep) w)
  = spotIds (exec (cleanupSpots nowSweep) w)
  /\ rpcs (exec (processLine line nowAdd nowSweep) w) = rpcs w.
Proof.
  intros Hm Hp. unfold processLine, logToConsole, sendToFlex, cleanupSpots.
  rewrite Hm, Hp. prog_simpl. done.
Qed.

(** C9. The key is absent and the add is answered with code 0 and a
    message that is not an integer: [addSpot] leaves the registry as
    it was, the key is still absent after the sweep, and the next
    event for the key sends a "spot add" and nothing else. *)
Theorem unparsed_id_creates_no_entry :
  forall w key (ev ev' : spotEvent) (err : NumError),
    spotIds w !! key = None ->
    Error (answer w ("spot add " +:+ eventFields w ev)) = 0 ->
    Atoi (Message (answer w ("spot add " +:+ eventFields w ev))) = inr err ->
    let w' := exec (handleEvent key ev) w in
    spotIds (exec (addEvent key ev) w) = spotIds w
    /\ spotIds w' !! key = None
    /\ issued (addEvent key ev') w'
       = [("spot add " +:+ eventFields w' ev',
           answer w' ("spot add " +:+ eventFields w' ev'))].
Proof.
  intros w key ev ev' err Hk H0 Hat w'.
  destruct (addSpot_absent w key (ev_spotCall ev) (ev_freqKhz ev)
              (ev_dxCall ev) (ev_comment ev) (ev_nowAdd ev) Hk)
    as (_ & _ & Hids).
  fold (addEvent key ev) in Hids. fold (eventFields w ev) in Hids.
  rewrite H0, Hat in Hids. cbn in Hids.
  assert (Hk' : spotIds w' !! key = None).
  { subst w'. by rewrite handleEvent_lookup, Hids, Hk. }
  split; [exact Hids|]. split; [exact Hk'|].
  apply (addSpot_absent w' key (ev_spotCall ev') (ev_freqKhz ev')
           (ev_dxCall ev') (ev_comment ev') (ev_nowAdd ev') Hk').
Qed.

(** C1, as the code has it.  The first event of a key that is absent
    sends exactly one "spot add".  If every later event of the
    sequence arrives while the key is present, then that add was
    answered with code 0 and an id [n]; and each later event before
    which no command of the sequence has been answered with the
    not-found code sends a "spot set" carrying [n], and a "spot add"
    after it exactly when that set is answered with the not-found
    code.  Nothing is stated about the events that follow such an
    answer. *)
Theorem dedup_one_add_then_updates :
  forall w key (ev : spotEvent) (evs : list spotEvent),
    spotIds w !! key = None ->
    Forall (fun a => is_Some (spotIds a.1 !! key))
      (arrivals key evs (exec (handleEvent key ev) w)) ->
    let first := "spot add " +:+ eventFields w ev in
    issued (addEvent key ev) w = [(first, answer w first)]
    /\ forall earlier a later,
         arrivals key evs (exec (handleEvent key ev) w)
         = (earlier ++ a :: later)%list ->
         exists n : Z,
           Error (answer w first) = 0
           /\ Atoi (Message (answer w first)) = inl n
           /\ (Forall (fun b =>
                   Forall (fun cr => Error cr.2 <> SpotNotFoundError)
                     (issued (addEvent key b.2) b.1)) earlier ->
               let set := "spot set " +:+ fmt_d n +:+ " "
                          +:+ eventFields a.1 a.2 in
               let add := "spot add " +:+ eventFields a.1 a.2 in
               issued (addEvent key a.2) a.1
               = (set, answer a.1 set)
                 :: (if Error (answer a.1 set) =? SpotNotFoundError
                     then [(add, answer (answered a.1 set) add)]
                     else [])).
Proof.
  intros w key ev evs Hk Hlive first.
  destruct (addSpot_absent w key (ev_spotCall ev) (ev_freqKhz ev)
              (ev_dxCall ev) (ev_comment ev) (ev_nowAdd ev) Hk)
    as (Hiss & _ & Hids).
  fold (addEvent key ev) in Hiss, Hids. fold (eventFields w ev) in Hiss, Hids.
  fold first in Hiss, Hids.
  split; [exact Hiss|].
  intros earlier a later Harr.
  destruct evs as [|ev2 evs]; [by destruct earlier|].
  assert (Hn : exists n, Error (answer w first) = 0
               /\ Atoi (Message (answer w first)) = inl n
               /\ forall sp, spotIds (exec (handleEvent key ev) w) !! key
                             = Some sp -> id sp = n).
  { pose proof Hlive as Hl. cbn in Hl. apply Forall_cons in Hl as [[sp Hsp] _].
    cbn [fst] in Hsp. rewrite handleEvent_lookup, Hids in Hsp.
    destruct (Z.eqb_spec (Error (answer w first)) 0) as [H0|H0];
      [|by rewrite Hk in Hsp].
    destruct (Atoi (Message (answer w first))) as [n|e];
      [|by rewrite Hk in Hsp].
    exists n. split; [done|]. split; [done|].
    intros sp'. rewrite handleEvent_lookup, Hids. rewrite lookup_insert_eq.
    destruct (_ <? _); [done|]. by intros [= <-]. }
  destruct Hn as (n & H0 & Hat & Hid).
  exists n. split; [exact H0|]. split; [exact Hat|].
  intros Hquiet.
  revert Hid Hlive Harr Hquiet.
  generalize (exec (handleEvent key ev) w) as w1.
  generalize (ev2 :: evs) as evs1. clear.
  intros evs1. revert earlier.
  induction evs1 as [|e evs1 IH]; intros earlier w1 Hid Hlive Harr Hquiet;
    [by destruct earlier|].
  cbn in Hlive, Harr. apply Forall_cons in Hlive as [[sp Hsp] Hlive].
  cbn [fst snd] in Hsp.
  destruct (addSpot_present w1 key (ev_spotCall e) (ev_freqKhz e)
              (ev_dxCall e) (ev_comment e) (ev_nowAdd e) sp Hsp)
    as (Hiss & _ & Hids).
  fold (addEvent key e) in Hiss, Hids. fold (eventFields w1 e) in Hiss.
  rewrite (Hid sp Hsp) in Hiss, Hids.
  destruct earlier as [|b earlier]; cbn in Harr.
  - injection Harr as <- _. exact Hiss.
  - injection Harr as <- Harr.
    apply Forall_cons in Hquiet as [Hb Hquiet]. cbn [fst snd] in Hb.
    rewrite Hiss in Hb. apply Forall_cons in Hb as [Hb _]. cbn [snd] in Hb.
    apply (IH earlier (exec (handleEvent key e) w1));
      [|exact Hlive|exact Harr|exact Hquiet].
    intros sp'. rewrite handleEvent_lookup, Hids.
    destruct (Z.eqb_spec (Error (answer w1
                ("spot set " +:+ fmt_d n +:+ " " +:+ eventFields w1 e)))
                SpotNotFoundError) as [Hnf|_]; [done|].
    match goal with |- context [if ?c then <[_:=_]> _ else _] =>
      destruct c end.
    + rewrite lookup_insert_eq.
      destruct (_ <? _); [done|]. by intros [= <-].
    + rewrite Hsp. destruct (_ <? _); [done|].
      intros [= <-]. by apply Hid.
Qed.

Lemma promptLoop_frame (line : string) (suffixes : list string) w :
  let w' := (promptLoop line suffixes w).2 in
  cfg w' = cfg w /\ spotIds w' = spotIds w /\ fc w' = fc w
  /\ rpcs w' = rpcs w /\ logs w' = logs w.
Proof.
  induction suffixes as [|suffix suffixes IH]; cbn; [done|].
  destruct (HasSuffix line suffix); [done | exact IH].
Qed.

(** C10. A line that [spotPattern] does not match leaves the registry
    as it was; no command is sent to the radio either. *)
Theorem nonspot_line_keeps_registry :
  forall w (line : string) (nowAdd nowSweep : Time),
    FindStringSubmatch spotPattern line = None ->
    let w' := exec (processLine line nowAdd nowSweep) w in
    spotIds w' = spotIds w /\ rpcs w' = rpcs w /\ fc w' = fc w.
Proof.
  intros w line nowAdd nowSweep Hm w'. subst w'.
  unfold processLine. rewrite Hm. rewrite exec_bind.
  destruct (promptLoop_frame line promptSuffixes w) as (_ & Hi & Hf & Hr & _).
  destruct ((promptLoop line promptSuffixes w).1); cbn [negb];
    unfold exec; prog_simpl; done.
Qed.

End Events.

(** ** Worked inputs *)

(** [spotLine1] and its groups. *)
Lemma spotLine1_match : FindStringSubmatch spotPattern spotLine1 = Some spotMatch1.
Proof. vm_compute. reflexivity. Qed.

(** Against C1 without its exception.  The radio answers the update of
    a live entry with the not-found code: the second event of the key
    sends a second "spot add", although the entry (id 7, expiring at
    400 s) is present and unexpired when the event arrives at 160 s. *)
Lemma dedup_second_add_on_not_found :
  spotIds forgetfulWorld !! key20m = None
  /\ issued (addEvent key20m event1) forgetfulWorld
     = [("spot add rx_freq=14.025000 callsign=W1XYZ spotter_callsign=K1ABC comment=CQ lifetime_seconds=300",
         ok "7")]
  /\ spotIds (exec (handleEvent key20m event1) forgetfulWorld) !! key20m
     = Some (Spot 7 (400 * Second))
  /\ ev_nowAdd event2 < 400 * Second
  /\ issued (addEvent key20m event2)
       (exec (handleEvent key20m event1) forgetfulWorld)
     = [("spot set 7 rx_freq=14.030000 callsign=W1XYZ spotter_callsign=K1ABC comment=CQ lifetime_seconds=300",
         failed SpotNotFoundError);
        ("spot add rx_freq=14.030000 callsign=W1XYZ spotter_callsign=K1ABC comment=CQ lifetime_seconds=300",
         ok "9")].
Proof. vm_compute. repeat split; reflexivity. Qed.

(** Three events of one key at a radio that accepts the add with id 7
    and every update: one add, then two updates carrying 7. *)
Lemma dedup_one_add_then_updates_witness :
  spotIds steadyWorld !! key20m = None
  /\ Forall (fun a => is_Some (spotIds a.1 !! key20m))
       (arrivals key20m [event2; event3]
          (exec (handleEvent key20m event1) steadyWorld))
  /\ issued (addEvent key20m event1) steadyWorld
     = [("spot add " +:+ eventFields steadyWorld event1,
         answer steadyWorld ("spot add " +:+ eventFields steadyWorld event1))]
  /\ forall earlier a later,
       arrivals key20m [event2; event3]
         (exec (handleEvent key20m event1) steadyWorld)
       = (earlier ++ a :: later)%list ->
       exists n : Z,
         Error (answer steadyWorld
                  ("spot add " +:+ eventFields steadyWorld event1)) = 0
         /\ Atoi (Message (answer steadyWorld
                  ("spot add " +:+ eventFields steadyWorld event1))) = inl n
         /\ (Forall (fun b =>
                 Forall (fun cr => Error cr.2 <> SpotNotFoundError)
                   (issued (addEvent key20m b.2) b.1)) earlier ->
             issued (addEvent key20m a.2) a.1
             = ("spot set " +:+ fmt_d n +:+ " " +:+ eventFields a.1 a.2,
                answer a.1
                  ("spot set " +:+ fmt_d n +:+ " " +:+ eventFields a.1 a.2))
               :: (if Error (answer a.1
                      ("spot set " +:+ fmt_d n +:+ " "
                       +:+ eventFields a.1 a.2)) =? SpotNotFoundError
                   then [("spot add " +:+ eventFields a.1 a.2,
                          answer (answered a.1
                             ("spot set " +:+ fmt_d n +:+ " "
                              +:+ eventFields a.1 a.2))
                            ("spot add " +:+ eventFields a.1 a.2))]
                   else [])).
Proof.
  assert (H1 : spotIds steadyWorld !! key20m = None) by (vm_compute; reflexivity).
  assert (H2 : Forall (fun a => is_Some (spotIds a.1 !! key20m))
       (arrivals key20m [event2; event3]
          (exec (handleEvent key20m event1) steadyWorld))).
  { cbn [arrivals]. repeat constructor; vm_compute; eauto. }
  split; [exact H1|]. split; [exact H2|].
  exact (dedup_one_add_then_updates steadyWorld key20m event1
           [event2; event3] H1 H2).
Defined.

(** C2.  The registry holds id 7 for the key; the radio answers the
    update with the not-found code and the add that follows with id 9.
    The add is sent at once, but the entry written keeps id 7. *)
Lemma notfound_fallback_keeps_stale_id :
  spotIds (exec (handleEvent key20m event1) forgetfulWorld) !! key20m
  = Some (Spot 7 (400 * Second))
  /\ issued (addEvent key20m event2)
       (exec (handleEvent key20m event1) forgetfulWorld)
     = [("spot set 7 rx_freq=14.030000 callsign=W1XYZ spotter_callsign=K1ABC comment=CQ lifetime_seconds=300",
         failed SpotNotFoundError);
        ("spot add rx_freq=14.030000 callsign=W1XYZ spotter_callsign=K1ABC comment=CQ lifetime_seconds=300",
         ok "9")]
  /\ Atoi "9" = inl 9
  /\ spotIds (exec (addEvent key20m event2)
                (exec (handleEvent key20m event1) forgetfulWorld)) !! key20m
     = Some (Spot 7 (460 * Second)).
Proof. vm_compute. repeat split; reflexivity. Qed.

(** The same through [main]'s loop: after the fallback the QRT line
    removes id 7, a spot the radio no longer has, and id 9 stays. *)
Lemma notfound_fallback_lines :
  rpcs (exec (readLines [(spotLine1, 100 * Second, 101 * Second);
                         (spotLine2, 160 * Second, 161 * Second);
                         (qrtLine, 220 * Second, 221 * Second)])
          forgetfulWorld)
  = [("spot add rx_freq=14.025000 callsign=W1XYZ spotter_callsign=K1ABC comment=CQ CQ DX lifetime_seconds=300",
      ok "7");
     ("spot set 7 rx_freq=14.030000 callsign=W1XYZ spotter_callsign=K1ABC comment=CQ lifetime_seconds=300",
      failed SpotNotFoundError);
     ("spot add rx_freq=14.030000 callsign=W1XYZ spotter_callsign=K1ABC comment=CQ lifetime_seconds=300",
      ok "9");
     ("spot remove 7", ok "")].
Proof. vm_compute. reflexivity. Qed.

(** Against C3 with "at or before": an entry that expires exactly at
    [now] is at or before [now], and the sweep keeps it. *)
Lemma cleanupSpots_keeps_entry_expiring_now :
  spotIds expiringWorld !! key20m = Some (Spot 1 (100 * Second))
  /\ expires (Spot 1 (100 * Second)) <= 100 * Second
  /\ spotIds (exec (cleanupSpots (100 * Second)) expiringWorld) !! key20m
     = Some (Spot 1 (100 * Second)).
Proof.
  split; [by vm_compute|]. split; [by vm_compute|].
  rewrite cleanupSpots_lookup. by vm_compute.
Qed.

(** [qrtLine] and its groups. *)
Lemma qrtLine_match :
  FindStringSubmatch spotPattern qrtLine = Some qrtMatch.
Proof. vm_compute. reflexivity. Qed.

(** The line [qrtLine], whose comment is "going QRT". *)
Lemma qrt_whole_word_removal_witness :
  FindStringSubmatch spotPattern qrtLine = Some qrtMatch
  /\ QRT defaultConfig = true
  /\ (removalRequested defaultConfig qrtMatch = true
      <-> containsWord "QRT" (idx qrtMatch 7))
  /\ map (MatchString qrtPattern) ["QRT"; "qrt"; "Qrt"; "QRTY"; "SQRT"]
     = [true; true; true; false; false].
Proof.
  split; [exact qrtLine_match|]. split; [reflexivity|].
  exact (qrt_whole_word_removal defaultConfig qrtLine qrtMatch
           qrtLine_match eq_refl).
Defined.

(** C7.  The comment of [spotLine1] is "CQ CQ DX".  [sendToFlex] calls
    [ReplaceAll] on it, which gives the text with the byte 0x7f for each
    space, and drops the result: the command sent carries the comment
    with its two spaces. *)
Lemma command_keeps_literal_spaces :
  FindStringSubmatch spotPattern spotLine1 = Some spotMatch1
  /\ idx spotMatch1 7 = "CQ CQ DX"
  /\ ReplaceAll "CQ CQ DX" " " del = "CQ" +:+ del +:+ "CQ" +:+ del +:+ "DX"
  /\ issued (processLine spotLine1 (100 * Second) (101 * Second)) steadyWorld
     = [("spot add rx_freq=14.025000 callsign=W1XYZ spotter_callsign=K1ABC comment=CQ CQ DX lifetime_seconds=300",
         ok "7")].
Proof. vm_compute. repeat split; reflexivity. Qed.

(** The add of [spotLine1] refused with code 5. *)
Lemma failed_event_keeps_registry_witness :
  FindStringSubmatch spotPattern spotLine1 = Some spotMatch1
  /\ ((exists err, ParseFloat (idx spotMatch1 3) = inr err)
      \/ (false = false
          /\ exists cmd res,
               (cmd, res) ∈ issued (sendToFlex spotMatch1 false (100 * Second))
                              refusingWorld
               /\ Error res <> 0 /\ Error res <> SpotNotFoundError))
  /\ spotIds (exec (sendToFlex spotMatch1 false (100 * Second)) refusingWorld)
     = spotIds refusingWorld.
Proof.
  assert (H : (exists err, ParseFloat (idx spotMatch1 3) = inr err)
   \/ (false = false
       /\ exists cmd res,
            (cmd, res) ∈ issued (sendToFlex spotMatch1 false (100 * Second))
                           refusingWorld
            /\ Error res <> 0 /\ Error res <> SpotNotFoundError)).
  { right. split; [reflexivity|].
    exists "spot add rx_freq=14.025000 callsign=W1XYZ spotter_callsign=K1ABC comment=CQ CQ DX lifetime_seconds=300",
      (failed 5).
    split; [vm_compute; left | split; vm_compute; discriminate]. }
  split; [exact spotLine1_match|]. split; [exact H|].
  exact (failed_event_keeps_registry refusingWorld spotLine1 spotMatch1 false
           (100 * Second) spotLine1_match H).
Defined.

(** A line whose frequency text has two points is still a spot line. *)
Lemma badFreqLine_match :
  FindStringSubmatch spotPattern "DX de K1ABC: 14.025.0 W1XYZ CQ 1234Z"
  = Some badFreqMatch.
Proof. vm_compute. reflexivity. Qed.

(** The frequency text "14.025.0" does not parse: nothing is sent and
    the registry is as before. *)
Lemma parse_failure_example :
  ParseFloat (idx badFreqMatch 3) = inr ErrSyntax
  /\ exec (sendToFlex badFreqMatch false (100 * Second)) expiringWorld
     = {| cfg := cfg expiringWorld; spotIds := spotIds expiringWorld;
          fc := fc expiringWorld; rpcs := [];
          logs := [LogErr ErrSyntax]; stdout := []; prompt := "" |}.
Proof. split; reflexivity. Qed.

(** The add answered with code 0 and the message "OK". *)
Lemma unparsed_id_creates_no_entry_witness :
  spotIds garbledWorld !! key20m = None
  /\ Error (answer garbledWorld
              ("spot add " +:+ eventFields garbledWorld event1)) = 0
  /\ Atoi (Message (answer garbledWorld
              ("spot add " +:+ eventFields garbledWorld event1)))
     = inr ErrSyntax
  /\ spotIds (exec (addEvent key20m event1) garbledWorld)
     = spotIds garbledWorld
  /\ spotIds (exec (handleEvent key20m event1) garbledWorld) !! key20m = None
  /\ issued (addEvent key20m event2)
       (exec (handleEvent key20m event1) garbledWorld)
     = [("spot add "
         +:+ eventFields (exec (handleEvent key20m event1) garbledWorld) event2,
         answer (exec (handleEvent key20m event1) garbledWorld)
           ("spot add "
            +:+ eventFields (exec (handleEvent key20m event1) garbledWorld)
                  event2))].
Proof.
  assert (H1 : spotIds garbledWorld !! key20m = None)
    by (vm_compute; reflexivity).
  assert (H2 : Error (answer garbledWorld
              ("spot add " +:+ eventFields garbledWorld event1)) = 0)
    by (vm_compute; reflexivity).
  assert (H3 : Atoi (Message (answer garbledWorld
              ("spot add " +:+ eventFields garbledWorld event1)))
     = inr ErrSyntax) by (vm_compute; reflexivity).
  split; [exact H1|]. split; [exact H2|]. split; [exact H3|].
  exact (unparsed_id_creates_no_entry garbledWorld key20m event1 event2
           ErrSyntax H1 H2 H3).
Defined.

(** The prompt line "login: " with one entry in the registry. *)
Lemma nonspot_line_keeps_registry_witness :
  FindStringSubmatch spotPattern "login: " = None
  /\ spotIds (exec (processLine "login: " 0 0) expiringWorld)
     = spotIds expiringWorld
  /\ rpcs (exec (processLine "login: " 0 0) expiringWorld)
     = rpcs expiringWorld
  /\ fc (exec (processLine "login: " 0 0) expiringWorld) = fc expiringWorld.
Proof.
  assert (H : FindStringSubmatch spotPattern "login: " = None)
    by (vm_compute; reflexivity).
  split; [exact H|].
  exact (nonspot_line_keeps_registry expiringWorld "login: " 0 0 H).
Defined.

(** * Further properties of the registry *)

Section RegistryMore.
Context {R : Type} `{!FlexClient R}.
Implicit Types (w : World R) (key : spotKey).

(** [removeSpot] in one equation for the registry and one for the
    commands. *)
Lemma removeSpot_effect w key :
  spotIds (exec (removeSpot key) w) = delete key (spotIds w)
  /\ cfg (exec (removeSpot key) w) = cfg w
  /\ issued (removeSpot key) w
     = match spotIds w !! key with
       | Some sp => [("spot remove " +:+ fmt_d (id sp),
                      answer w ("spot remove " +:+ fmt_d (id sp)))]
       | None => []
       end.
Proof.
  unfold removeSpot. prog_simpl.
  destruct (spotIds w !! key) as [sp|] eqn:Hk; prog_simpl.
  - destruct (SendAndWait (fc w) _) as [res radio]; cbn [fst snd].
    destruct (negb _ && negb _); prog_simpl; by rewrite drop_issued.
  - by rewrite drop_all.
Qed.

(** The commands of [addSpot] come after those already sent. *)
Lemma addSpot_rpcs w key spotCall freqKhz dxCall comment (now : Time) :
  let p := addSpot key spotCall freqKhz dxCall comment now in
  rpcs (exec p w) = (rpcs w ++ issued p w)%list.
Proof.
  intros p. subst p. unfold addSpot. prog_simpl.
  destruct (spotIds w !! key) as [sp|] eqn:Hk.
  - rewrite bool_decide_eq_true_2 by eauto. cbn [negb orb]. prog_simpl.
    destruct (SendAndWait (fc w) _) as [r1 radio1]; cbn [fst snd].
    destruct (Error r1 =? SpotNotFoundError); prog_simpl.
    + destruct (SendAndWait radio1 _) as [r2 radio2]; cbn [fst snd].
      destruct (negb (Error r2 =? 0)); prog_simpl;
        by rewrite <- app_assoc, drop_issued.
    + destruct (negb (Error r1 =? 0)); prog_simpl; by rewrite drop_issued.
  - rewrite bool_decide_eq_false_2 by (by intros [? ?]).
    cbn [negb orb]. prog_simpl.
    destruct (SendAndWait (fc w) _) as [res radio]; cbn [fst snd].
    destruct (negb (Error res =? 0)); prog_simpl; [by rewrite drop_issued|].
    destruct (Atoi (Message res)); prog_simpl; by rewrite drop_issued.
Qed.

(** X: a successful add.  The key is absent and the radio answers the
    add with code 0 and a message that reads as the integer [n]: one
    command is sent, nothing is logged, and the registry gains exactly
    the entry of the key, with id [n] and expiry [now + Timeout]. *)
Theorem addSpot_creates_entry :
  forall w key spotCall (freqKhz : float64) dxCall comment (now : Time) (n : Z),
    spotIds w !! key = None ->
    Error (answer w ("spot add " +:+ spotFields (cfg w) spotCall freqKhz
                                       dxCall comment)) = 0 ->
    Atoi (Message (answer w ("spot add " +:+ spotFields (cfg w) spotCall
                               freqKhz dxCall comment))) = inl n ->
    let p := addSpot key spotCall freqKhz dxCall comment now in
    let cmd := "spot add "
               +:+ spotFields (cfg w) spotCall freqKhz dxCall comment in
    spotIds (exec p w) = <[key := Spot n (now + Timeout (cfg w))]> (spotIds w)
    /\ issued p w = [(cmd, answer w cmd)]
    /\ logs (exec p w) = logs w.
Proof.
  intros w key spotCall freqKhz dxCall comment now n Hk H0 Hn p cmd.
  fold cmd in H0, Hn.
  destruct (addSpot_absent w key spotCall freqKhz dxCall comment now Hk)
    as (Hiss & _ & Hids).
  fold p cmd in Hiss, Hids. rewrite H0, Hn in Hids. cbn in Hids.
  split; [exact Hids|]. split; [exact Hiss|].
  subst p. unfold addSpot. prog_simpl.
  rewrite Hk. rewrite bool_decide_eq_false_2 by (by intros [? ?]).
  cbn [negb orb]. prog_simpl. fold cmd.
  unfold answer in H0, Hn.
  destruct (SendAndWait (fc w) cmd) as [res radio]; cbn [fst snd] in *.
  rewrite H0. cbn [Z.eqb negb]. rewrite Hn. reflexivity.
Qed.

(** X: a successful update.  The key is present and the radio answers
    the "spot set" with code 0: that is the only command, nothing is
    logged, the id is kept and the expiry becomes [now + Timeout]. *)
Theorem addSpot_refreshes_entry :
  forall w key spotCall (freqKhz : float64) dxCall comment (now : Time) sp,
    spotIds w !! key = Some sp ->
    Error (answer w ("spot set " +:+ fmt_d (id sp) +:+ " "
                     +:+ spotFields (cfg w) spotCall freqKhz dxCall
                           comment)) = 0 ->
    let p := addSpot key spotCall freqKhz dxCall comment now in
    let cmd := "spot set " +:+ fmt_d (id sp) +:+ " "
               +:+ spotFields (cfg w) spotCall freqKhz dxCall comment in
    spotIds (exec p w)
    = <[key := Spot (id sp) (now + Timeout (cfg w))]> (spotIds w)
    /\ issued p w = [(cmd, answer w cmd)]
    /\ logs (exec p w) = logs w.
Proof.
  intros w key spotCall freqKhz dxCall comment now sp Hk H0 p cmd.
  fold cmd in H0.
  destruct (addSpot_present w key spotCall freqKhz dxCall comment now sp Hk)
    as (Hiss & _ & Hids).
  fold p cmd in Hiss, Hids. rewrite H0 in Hiss, Hids.
  change (0 =? SpotNotFoundError) with false in Hiss, Hids.
  cbv beta iota in Hids. rewrite H0 in Hids.
  change (0 =? 0) with true in Hids. cbv beta iota in Hids.
  split; [exact Hids|]. split; [exact Hiss|].
  subst p. unfold addSpot. prog_simpl.
  rewrite Hk. rewrite bool_decide_eq_true_2 by eauto.
  cbn [negb orb default from_option]. unfold Datatypes.id. prog_simpl.
  fold cmd. unfold answer in H0.
  destruct (SendAndWait (fc w) cmd) as [res radio]; cbn [fst snd] in *.
  rewrite H0. change (0 =? SpotNotFoundError) with false.
  cbv beta iota. cbn [fst snd]. rewrite H0. reflexivity.
Qed.

(** X: the operations on one key leave every other key's entry as it
    was, whatever the radio answers. *)
Theorem other_keys_untouched :
  forall w key key' spotCall (freqKhz : float64) dxCall comment (now : Time),
    key' <> key ->
    spotIds (exec (addSpot key spotCall freqKhz dxCall comment now) w) !! key'
    = spotIds w !! key'
    /\ spotIds (exec (removeSpot key) w) !! key' = spotIds w !! key'.
Proof.
  intros w key key' spotCall freqKhz dxCall comment now Hne. split.
  - destruct (spotIds w !! key) as [sp|] eqn:Hk.
    + destruct (addSpot_present w key spotCall freqKhz dxCall comment now
                  sp Hk) as (_ & _ & ->).
      destruct (_ =? 0); [by rewrite lookup_insert_ne | done].
    + destruct (addSpot_absent w key spotCall freqKhz dxCall comment now Hk)
        as (_ & _ & ->).
      destruct (_ =? 0); [|done].
      destruct (Atoi _); [by rewrite lookup_insert_ne | done].
  - destruct (removeSpot_effect w key) as (-> & _).
    by rewrite lookup_delete_ne.
Qed.

(** X: remove, then spot again.  After [removeSpot] the next event of
    the key sends a "spot add" and nothing else: never an update with
    the id that was removed. *)
Theorem respot_after_remove_adds :
  forall w key spotCall (freqKhz : float64) dxCall comment (now : Time),
    let w1 := exec (removeSpot key) w in
    let cmd := "spot add "
               +:+ spotFields (cfg w) spotCall freqKhz dxCall comment in
    issued (addSpot key spotCall freqKhz dxCall comment now) w1
    = [(cmd, answer w1 cmd)].
Proof.
  intros w key spotCall freqKhz dxCall comment now w1 cmd.
  destruct (removeSpot_effect w key) as (Hids & Hcfg & _).
  assert (Hk : spotIds w1 !! key = None).
  { subst w1. rewrite Hids. apply lookup_delete_eq. }
  destruct (addSpot_absent w1 key spotCall freqKhz dxCall comment now Hk)
    as (Hiss & _). subst w1 cmd. by rewrite Hcfg in Hiss.
Qed.

(** X: [addSpot] never removes an entry and never changes the id of a
    key that is present; the expiry is either kept or set to
    [now + Timeout].  This holds on every path, the not-found fallback
    included. *)
Theorem addSpot_keeps_id :
  forall w key spotCall (freqKhz : float64) dxCall comment (now : Time) sp,
    spotIds w !! key = Some sp ->
    exists e : Time,
      spotIds (exec (addSpot key spotCall freqKhz dxCall comment now) w) !! key
      = Some (Spot (id sp) e)
      /\ (e = expires sp \/ e = now + Timeout (cfg w)).
Proof.
  intros w key spotCall freqKhz dxCall comment now sp Hk.
  destruct (addSpot_present w key spotCall freqKhz dxCall comment now sp Hk)
    as (_ & _ & ->).
  destruct (_ =? 0).
  - exists (now + Timeout (cfg w)). rewrite lookup_insert_eq. auto.
  - exists (expires sp). rewrite Hk. destruct sp. auto.
Qed.

(** X: two sweeps are one sweep at the later time; in particular a
    sweep repeated at the same time changes nothing more. *)
Theorem cleanupSpots_twice :
  forall w (t1 t2 : Time),
    spotIds (exec (cleanupSpots t2) (exec (cleanupSpots t1) w))
    = spotIds (exec (cleanupSpots (Z.max t1 t2)) w).
Proof.
  intros w t1 t2. apply map_eq. intros k.
  rewrite !cleanupSpots_lookup.
  destruct (spotIds w !! k) as [v|]; [|done].
  destruct (Z.ltb_spec (expires v) t1), (Z.ltb_spec (expires v) t2),
    (Z.ltb_spec (expires v) (Z.max t1 t2)); try done; lia.
Qed.

(** X: after the sweep that ends the handling of an event, the fresh
    entry of a successful add is still there iff the sweep's clock
    reading is not past its expiry; with a timeout shorter than the
    time between the two readings it is dropped at once. *)
Theorem fresh_entry_survives_sweep :
  forall w key (ev : spotEvent) (n : Z),
    spotIds w !! key = None ->
    Error (answer w ("spot add " +:+ eventFields w ev)) = 0 ->
    Atoi (Message (answer w ("spot add " +:+ eventFields w ev))) = inl n ->
    spotIds (exec (handleEvent key ev) w) !! key
    = if ev_nowSweep ev <=? ev_nowAdd ev + Timeout (cfg w)
      then Some (Spot n (ev_nowAdd ev + Timeout (cfg w)))
      else None.
Proof.
  intros w key ev n Hk H0 Hn.
  rewrite handleEvent_lookup.
  destruct (addSpot_absent w key (ev_spotCall ev) (ev_freqKhz ev)
              (ev_dxCall ev) (ev_comment ev) (ev_nowAdd ev) Hk)
    as (_ & _ & Hids).
  fold (addEvent key ev) in Hids. fold (eventFields w ev) in Hids.
  rewrite H0, Hn in Hids. cbn in Hids. rewrite Hids, lookup_insert_eq.
  cbn [expires].
  destruct (Z.ltb_spec (ev_nowAdd ev + Timeout (cfg w)) (ev_nowSweep ev)),
    (Z.leb_spec (ev_nowSweep ev) (ev_nowAdd ev + Timeout (cfg w)));
    try done; lia.
Qed.

End RegistryMore.

(** * The loop body, line by line *)

Section Lines.
Context {R : Type} `{!FlexClient R}.
Implicit Types (w : World R) (key : spotKey).

(** The console echo changes the log or the console, nothing else. *)
Lemma logToConsole_frame w (m : list string) (remove : bool) :
  let w0 := exec (logToConsole m remove) w in
  cfg w0 = cfg w /\ spotIds w0 = spotIds w /\ fc w0 = fc w
  /\ rpcs w0 = rpcs w.
Proof. unfold logToConsole. by destruct (ParseFloat _); prog_simpl. Qed.

(** A spot line: echo, then [sendToFlex], then the sweep. *)
Lemma processLine_spot w (line : string) (m : list string)
    (nowAdd nowSweep : Time) :
  FindStringSubmatch spotPattern line = Some m ->
  exec (processLine line nowAdd nowSweep) w
  = exec (cleanupSpots nowSweep)
      (exec (sendToFlex m (removalRequested (cfg w) m) nowAdd)
         (exec (logToConsole m (removalRequested (cfg w) m)) w)).
Proof. intros Hm. unfold processLine. rewrite Hm. reflexivity. Qed.

Lemma sendToFlex_key w (m : list string) (remove : bool) (now : Time)
    (freqKhz : float64) :
  ParseFloat (idx m 3) = inl freqKhz ->
  sendToFlex m remove now w
  = (if remove
     then removeSpot (keyOf (cfg w) freqKhz (idx m 5))
     else addSpot (keyOf (cfg w) freqKhz (idx m 5)) (idx m 1) freqKhz
            (idx m 5) (idx m 7) now) w.
Proof. intros Hp. unfold sendToFlex. rewrite Hp. reflexivity. Qed.

(** What [sendToFlex] does to the configuration and to the trace. *)
Lemma sendToFlex_trace w (m : list string) (remove : bool) (now : Time) :
  let p := sendToFlex m remove now in
  cfg (exec p w) = cfg w
  /\ rpcs (exec p w) = (rpcs w ++ issued p w)%list.
Proof.
  intros p. subst p.
  destruct (ParseFloat (idx m 3)) as [freqKhz|err] eqn:Hp.
  - unfold issued, exec. rewrite (sendToFlex_key _ _ _ _ _ Hp).
    destruct remove.
    + unfold removeSpot. prog_simpl.
      destruct (spotIds w !! _) as [sp|]; prog_simpl.
      * destruct (SendAndWait (fc w) _) as [res radio]; cbn [fst snd].
        destruct (negb _ && negb _); prog_simpl; by rewrite drop_issued.
      * by rewrite drop_all, app_nil_r.
    + split; [|apply addSpot_rpcs].
      set (key := keyOf _ _ _).
      destruct (spotIds w !! key) as [sp|] eqn:Hk.
      * apply (addSpot_present w key _ _ _ _ now sp Hk).
      * apply (addSpot_absent w key _ _ _ _ now Hk).
  - unfold sendToFlex, issued. rewrite Hp. prog_simpl.
    by rewrite drop_all, app_nil_r.
Qed.

(** The same for a whole line. *)
Lemma processLine_trace w (line : string) (nowAdd nowSweep : Time) :
  let p := processLine line nowAdd nowSweep in
  cfg (exec p w) = cfg w
  /\ rpcs (exec p w) = (rpcs w ++ issued p w)%list.
Proof.
  intros p. subst p.
  destruct (FindStringSubmatch spotPattern line) as [m|] eqn:Hm.
  - unfold issued. fold (exec (processLine line nowAdd nowSweep) w).
    rewrite (processLine_spot _ _ _ _ _ Hm).
    set (rr := removalRequested (cfg w) m).
    destruct (logToConsole_frame w m rr) as (Hc0 & _ & _ & Hr0).
    destruct (sendToFlex_trace (exec (logToConsole m rr) w) m rr nowAdd)
      as (Hc1 & Hr1).
    destruct (cleanupSpots_frame
                (exec (sendToFlex m rr nowAdd) (exec (logToConsole m rr) w))
                nowSweep) as (Hc2 & _ & Hr2 & _).
    rewrite Hc2, Hc1, Hc0, Hr2, Hr1, Hr0. split; [done|].
    by rewrite drop_issued.
  - unfold processLine, issued. rewrite Hm.
    fold (exec (promptLoop line promptSuffixes ≫=
                  (fun isPrompt => if negb isPrompt then println line
                                   else mret tt)) w).
    rewrite exec_bind.
    destruct (promptLoop_frame line promptSuffixes w)
      as (Hc & _ & _ & Hr & _).
    destruct ((promptLoop line promptSuffixes w).1); cbn [negb];
      unfold exec; prog_simpl; rewrite Hc, Hr;
      by rewrite drop_all, app_nil_r.
Qed.

(** The commands of a spot line are those of [sendToFlex]. *)
Lemma processLine_issued w (line : string) (m : list string)
    (nowAdd nowSweep : Time) :
  FindStringSubmatch spotPattern line = Some m ->
  issued (processLine line nowAdd nowSweep) w
  = issued (sendToFlex m (removalRequested (cfg w) m) nowAdd)
      (exec (logToConsole m (removalRequested (cfg w) m)) w).
Proof.
  intros Hm. unfold issued at 1.
  fold (exec (processLine line nowAdd nowSweep) w).
  rewrite (processLine_spot _ _ _ _ _ Hm).
  set (rr := removalRequested (cfg w) m).
  destruct (logToConsole_frame w m rr) as (_ & _ & _ & Hr0).
  destruct (sendToFlex_trace (exec (logToConsole m rr) w) m rr nowAdd)
    as (_ & Hr1).
  destruct (cleanupSpots_frame
              (exec (sendToFlex m rr nowAdd) (exec (logToConsole m rr) w))
              nowSweep) as (_ & _ & Hr2 & _).
  rewrite Hr2, Hr1, Hr0. by rewrite drop_issued.
Qed.

Lemma answer_same_fc (w w0 : World R) (cmd : string) :
  fc w0 = fc w -> answer w0 cmd = answer w cmd.
Proof. unfold answer. by intros ->. Qed.

Lemma answered_same_fc (w w0 : World R) (cmd cmd' : string) :
  fc w0 = fc w -> answer (answered w0 cmd) cmd' = answer (answered w cmd) cmd'.
Proof. unfold answer, answered. prog_simpl. by intros ->. Qed.

(** X: after every spot line the registry holds no entry that expired
    before the clock reading of the sweep. *)
Theorem spot_line_leaves_no_expired_entry :
  forall w (line : string) (m : list string) (nowAdd nowSweep : Time),
    FindStringSubmatch spotPattern line = Some m ->
    forall key sp,
      spotIds (exec (processLine line nowAdd nowSweep) w) !! key = Some sp ->
      nowSweep <= expires sp.
Proof.
  intros w line m nowAdd nowSweep Hm key sp.
  rewrite (processLine_spot _ _ _ _ _ Hm), cleanupSpots_lookup.
  destruct (_ !! key) as [v|]; [|done].
  destruct (Z.ltb_spec (expires v) nowSweep); [done|].
  intros [= <-]. done.
Qed.

(** X: a spot line whose frequency text does not parse.  The error is
    logged twice (by the echo and by [sendToFlex]), nothing is printed,
    nothing is sent, and the registry is the prior one swept. *)
Theorem bad_frequency_line :
  forall w (line : string) (m : list string) (nowAdd nowSweep : Time)
         (err : NumError),
    FindStringSubmatch spotPattern line = Some m ->
    ParseFloat (idx m 3) = inr err ->
    let w' := exec (processLine line nowAdd nowSweep) w in
    logs w' = (logs w ++ [LogErr err; LogErr err])%list
    /\ stdout w' = stdout w
    /\ rpcs w' = rpcs w
    /\ spotIds w' = spotIds (exec (cleanupSpots nowSweep) w).
Proof.
  intros w line m nowAdd nowSweep err Hm Hp w'. subst w'.
  unfold processLine, logToConsole, sendToFlex, cleanupSpots.
  rewrite Hm, Hp. prog_simpl. by rewrite <- app_assoc.
Qed.

(** X: a line sends at most two commands, and two only as an update
    answered with the not-found code followed by an add. *)
Theorem at_most_two_commands :
  forall w (line : string) (nowAdd nowSweep : Time),
    (length (issued (processLine line nowAdd nowSweep) w) <= 2)%nat
    /\ (length (issued (processLine line nowAdd nowSweep) w) = 2%nat ->
        exists tl1 tl2 r1 r2,
          issued (processLine line nowAdd nowSweep) w
          = [("spot set " +:+ tl1, r1); ("spot add " +:+ tl2, r2)]
          /\ Error r1 = SpotNotFoundError).
Proof.
  intros w line nowAdd nowSweep.
  destruct (FindStringSubmatch spotPattern line) as [m|] eqn:Hm.
  - rewrite (processLine_issued _ _ _ _ _ Hm).
    set (rr := removalRequested (cfg w) m).
    set (w0 := exec (logToConsole m rr) w).
    destruct (ParseFloat (idx m 3)) as [freqKhz|err] eqn:Hp.
    + unfold issued. rewrite (sendToFlex_key _ _ _ _ _ Hp).
      set (key := keyOf _ _ _). destruct rr.
      * destruct (removeSpot_effect w0 key) as (_ & _ & Hiss).
        unfold issued in Hiss. rewrite Hiss.
        destruct (spotIds w0 !! key); cbn; split; (lia || done).
      * destruct (spotIds w0 !! key) as [sp|] eqn:Hk.
        -- destruct (addSpot_present w0 key (idx m 1) freqKhz (idx m 5)
                       (idx m 7) nowAdd sp Hk) as (Hiss & _).
           unfold issued in Hiss. rewrite Hiss.
           case_eqb SpotNotFoundError; cbn; (split; [lia|]); [|done].
           intros _. eexists _, _, _, _. split; [reflexivity|done].
        -- destruct (addSpot_absent w0 key (idx m 1) freqKhz (idx m 5)
                       (idx m 7) nowAdd Hk) as (Hiss & _).
           unfold issued in Hiss. rewrite Hiss. cbn. split; [lia|done].
    + unfold issued, sendToFlex. rewrite Hp. prog_simpl.
      rewrite drop_all. cbn. split; [lia|done].
  - destruct (processLine_trace w line nowAdd nowSweep) as (_ & Hr).
    assert (Hnil : issued (processLine line nowAdd nowSweep) w = []).
    { unfold issued, processLine. rewrite Hm.
      fold (exec (promptLoop line promptSuffixes ≫=
                    (fun isPrompt => if negb isPrompt then println line
                                     else mret tt)) w).
      rewrite exec_bind.
      destruct (promptLoop_frame line promptSuffixes w)
        as (_ & _ & _ & Hr' & _).
      destruct ((promptLoop line promptSuffixes w).1); cbn [negb];
        unfold exec; prog_simpl; rewrite Hr'; by rewrite drop_all. }
    rewrite Hnil. cbn. split; [lia|done].
Qed.

(** X: a removal line.  For a spot line flagged as a removal whose
    frequency parses, the key's entry is gone afterwards; a
    "spot remove" with the stored id is sent when the key was present,
    and nothing is sent when it was absent. *)
Theorem removal_line_deletes_entry :
  forall w (line : string) (m : list string) (freqKhz : float64)
         (nowAdd nowSweep : Time),
    FindStringSubmatch spotPattern line = Some m ->
    ParseFloat (idx m 3) = inl freqKhz ->
    removalRequested (cfg w) m = true ->
    let key := keyOf (cfg w) freqKhz (idx m 5) in
    spotIds (exec (processLine line nowAdd nowSweep) w) !! key = None
    /\ issued (processLine line nowAdd nowSweep) w
       = match spotIds w !! key with
         | Some sp => [("spot remove " +:+ fmt_d (id sp),
                        answer w ("spot remove " +:+ fmt_d (id sp)))]
         | None => []
         end.
Proof.
  intros w line m freqKhz nowAdd nowSweep Hm Hp Hrr key.
  set (w0 := exec (logToConsole m true) w).
  destruct (logToConsole_frame w m true) as (Hc0 & Hi0 & Hf0 & Hr0).
  fold w0 in Hc0, Hi0, Hf0, Hr0.
  destruct (removeSpot_effect w0 key) as (Hids & _ & Hiss).
  split.
  - rewrite (processLine_spot _ _ _ _ _ Hm), Hrr, cleanupSpots_lookup.
    fold w0. unfold exec at 1. rewrite (sendToFlex_key _ _ _ _ _ Hp).
    rewrite Hc0. fold key. fold (exec (removeSpot key) w0).
    by rewrite Hids, lookup_delete_eq.
  - rewrite (processLine_issued _ _ _ _ _ Hm), Hrr. fold w0.
    unfold issued. rewrite (sendToFlex_key _ _ _ _ _ Hp).
    rewrite Hc0. fold key. unfold issued in Hiss. rewrite Hiss, Hi0.
    destruct (spotIds w !! key); [|done].
    by rewrite (answer_same_fc w w0 _ Hf0).
Qed.

End Lines.

(** * Whole runs *)

Section Runs.
Context {R : Type} `{!FlexClient R}.
Implicit Types (w : World R) (key : spotKey).

Lemma processLine_nonspot w (line : string) (nowAdd nowSweep : Time) :
  FindStringSubmatch spotPattern line = None ->
  let w' := exec (processLine line nowAdd nowSweep) w in
  cfg w' = cfg w /\ spotIds w' = spotIds w /\ rpcs w' = rpcs w.
Proof.
  intros Hm w'. subst w'. unfold processLine. rewrite Hm, exec_bind.
  destruct (promptLoop_frame line promptSuffixes w) as (Hc & Hi & _ & Hr & _).
  destruct ((promptLoop line promptSuffixes w).1); cbn [negb];
    unfold exec; prog_simpl; done.
Qed.

(** The trace of a run: the commands of the first line, then those of
    the rest. *)
Lemma readLines_trace (lines : list (string * Time * Time)) :
  forall w,
    cfg (exec (readLines lines) w) = cfg w
    /\ rpcs (exec (readLines lines) w)
       = (rpcs w ++ issued (readLines lines) w)%list.
Proof.
  induction lines as [|[[line t1] t2] lines IH]; intros w.
  - unfold issued, exec. cbn. by rewrite drop_all, app_nil_r.
  - cbn [readLines]. unfold issued. fold (exec (processLine line t1 t2 ;;
                                               readLines lines) w).
    rewrite exec_bind.
    destruct (processLine_trace w line t1 t2) as (Hc & Hr).
    destruct (IH (exec (processLine line t1 t2) w)) as (Hc' & Hr').
    fold (exec (processLine line t1 t2) w).
    rewrite Hc', Hc, Hr', Hr. split; [done|].
    by rewrite <- app_assoc, drop_issued.
Qed.

Lemma readLines_issued_cons (line : string) (t1 t2 : Time)
    (lines : list (string * Time * Time)) w :
  issued (readLines ((line, t1, t2) :: lines)) w
  = (issued (processLine line t1 t2) w
     ++ issued (readLines lines) (exec (processLine line t1 t2) w))%list.
Proof.
  cbn [readLines]. unfold issued at 1.
  fold (exec (processLine line t1 t2 ;; readLines lines) w).
  rewrite exec_bind. fold (exec (processLine line t1 t2) w).
  destruct (processLine_trace w line t1 t2) as (_ & Hr).
  destruct (readLines_trace lines (exec (processLine line t1 t2) w))
    as (_ & Hr').
  rewrite Hr', Hr. by rewrite <- app_assoc, drop_issued.
Qed.

(** One step towards [idsFromRadio]: the trace only grows, and every
    entry either keeps the id its key had or carries an id read from
    an accepted add of the trace. *)
Lemma idsFromRadio_step w w' :
  idsFromRadio w ->
  (exists new, rpcs w' = (rpcs w ++ new)%list) ->
  (forall key sp,
     spotIds w' !! key = Some sp ->
     (exists sp0, spotIds w !! key = Some sp0 /\ id sp0 = id sp)
     \/ (exists cmd res,
           (cmd, res) ∈ rpcs w'
           /\ (exists fields, cmd = "spot add " +:+ fields)
           /\ Error res = 0 /\ Atoi (Message res) = inl (id sp))) ->
  idsFromRadio w'.
Proof.
  intros Hinv [new Hnew] Hstep key sp Hk.
  destruct (Hstep key sp Hk) as [(sp0 & Hk0 & Hid)|Hw]; [|exact Hw].
  destruct (Hinv key sp0 Hk0) as (cmd & res & Hin & Hadd & H0 & Hat).
  exists cmd, res. rewrite Hnew, Hid in *.
  split; [apply elem_of_app; by left | done].
Qed.

Lemma addSpot_idsFromRadio w key spotCall (freqKhz : float64) dxCall
    comment (now : Time) :
  idsFromRadio w ->
  idsFromRadio (exec (addSpot key spotCall freqKhz dxCall comment now) w).
Proof.
  intros Hinv. apply (idsFromRadio_step w); [done| |].
  { eexists. apply addSpot_rpcs. }
  intros k sp Hk.
  pose proof (addSpot_rpcs w key spotCall freqKhz dxCall comment now) as Hr.
  cbv zeta in Hr.
  destruct (spotIds w !! key) as [sp0|] eqn:Hk0.
  - destruct (addSpot_present w key spotCall freqKhz dxCall comment now
                sp0 Hk0) as (_ & _ & Hids).
    rewrite Hids in Hk. left.
    destruct (_ =? 0); [|by eauto].
    destruct (decide (k = key)) as [->|Hne].
    + rewrite lookup_insert_eq in Hk. injection Hk as <-. eauto.
    + rewrite lookup_insert_ne in Hk by done. eauto.
  - destruct (addSpot_absent w key spotCall freqKhz dxCall comment now Hk0)
      as (Hiss & _ & Hids).
    rewrite Hids in Hk.
    destruct (Z.eqb_spec (Error (answer w ("spot add "
                +:+ spotFields (cfg w) spotCall freqKhz dxCall comment))) 0)
      as [H0|H0]; [|by eauto].
    destruct (Atoi _) as [n|e] eqn:Hn; [|by eauto].
    destruct (decide (k = key)) as [->|Hne].
    + rewrite lookup_insert_eq in Hk. injection Hk as <-. right.
      eexists _, _. split.
      { rewrite Hr, Hiss. apply elem_of_app. right. apply list_elem_of_here. }
      split; [by eexists|]. split; [exact H0 | exact Hn].
    + rewrite lookup_insert_ne in Hk by done. eauto.
Qed.

Lemma processLine_idsFromRadio w (line : string) (nowAdd nowSweep : Time) :
  idsFromRadio w ->
  idsFromRadio (exec (processLine line nowAdd nowSweep) w).
Proof.
  intros Hinv.
  destruct (FindStringSubmatch spotPattern line) as [m|] eqn:Hm.
  - rewrite (processLine_spot _ _ _ _ _ Hm).
    set (rr := removalRequested (cfg w) m).
    set (w0 := exec (logToConsole m rr) w).
    destruct (logToConsole_frame w m rr) as (_ & Hi0 & _ & Hr0).
    fold w0 in Hi0, Hr0.
    assert (H0 : idsFromRadio w0).
    { intros k sp. rewrite Hi0, Hr0. apply Hinv. }
    assert (H1 : idsFromRadio (exec (sendToFlex m rr nowAdd) w0)).
    { destruct (ParseFloat (idx m 3)) as [freqKhz|err] eqn:Hp.
      - unfold exec. rewrite (sendToFlex_key _ _ _ _ _ Hp).
        destruct rr; [|by apply addSpot_idsFromRadio].
        set (key := keyOf _ _ _).
        fold (exec (removeSpot key) w0).
        destruct (sendToFlex_trace w0 m true nowAdd) as (_ & Hr).
        unfold exec in Hr. rewrite (sendToFlex_key _ _ _ _ _ Hp) in Hr.
        fold key in Hr. fold (exec (removeSpot key) w0) in Hr.
        apply (idsFromRadio_step w0); [done|by eexists|].
        intros k sp. destruct (removeSpot_effect w0 key) as (-> & _).
        intros [_ Hk]%lookup_delete_Some. eauto.
      - unfold sendToFlex. rewrite Hp.
        intros k sp. unfold exec. prog_simpl. apply H0. }
    destruct (cleanupSpots_frame (exec (sendToFlex m rr nowAdd) w0) nowSweep)
      as (_ & _ & Hr2 & _).
    apply (idsFromRadio_step (exec (sendToFlex m rr nowAdd) w0));
      [done| exists []; by rewrite Hr2, app_nil_r |].
    intros k sp. rewrite cleanupSpots_lookup.
    destruct (_ !! k) as [v|]; [|done].
    destruct (_ <? _); [done|]. intros [= <-]. eauto.
  - destruct (processLine_nonspot w line nowAdd nowSweep Hm) as (_ & Hi & Hr).
    intros k sp. rewrite Hi, Hr. apply Hinv.
Qed.

(** X: an invariant of every run.  Whatever lines arrive and whatever
    the radio answers, each id in the registry is the integer read
    from the message of a "spot add" that the radio answered with
    code 0 during that run. *)
Theorem registry_ids_come_from_radio :
  forall (c : Config) (radio : R) (lines : list (string * Time * Time)),
    idsFromRadio (exec (readLines lines) (initWorld c radio)).
Proof.
  intros c radio lines.
  assert (Hgen : forall w, idsFromRadio w ->
                           idsFromRadio (exec (readLines lines) w)).
  { induction lines as [|[[line t1] t2] lines IH]; intros w Hinv; [done|].
    cbn [readLines]. rewrite exec_bind.
    apply IH. by apply processLine_idsFromRadio. }
  apply Hgen. intros key sp Hk. cbn [initWorld spotIds] in Hk.
  by rewrite lookup_empty in Hk.
Qed.

Lemma processLine_no_removal w (line : string) (nowAdd nowSweep : Time)
    (cmd : string) (res : CmdResult) :
  QRT (cfg w) = false ->
  (cmd, res) ∈ issued (processLine line nowAdd nowSweep) w ->
  isAddOrSet cmd.
Proof.
  intros Hq.
  destruct (FindStringSubmatch spotPattern line) as [m|] eqn:Hm.
  - rewrite (processLine_issued _ _ _ _ _ Hm).
    unfold removalRequested. rewrite Hq. cbn [andb].
    set (w0 := exec (logToConsole m false) w).
    destruct (ParseFloat (idx m 3)) as [freqKhz|err] eqn:Hp.
    + unfold issued. rewrite (sendToFlex_key _ _ _ _ _ Hp).
      set (key := keyOf _ _ _).
      destruct (spotIds w0 !! key) as [sp|] eqn:Hk.
      * destruct (addSpot_present w0 key (idx m 1) freqKhz (idx m 5)
                    (idx m 7) nowAdd sp Hk) as (Hiss & _).
        unfold issued in Hiss. rewrite Hiss.
        intros [[= -> ->]|Hin]%elem_of_cons; [eexists; by right|].
        case_eqb SpotNotFoundError; [|by apply elem_of_nil in Hin].
        apply list_elem_of_singleton in Hin as [= -> ->]. eexists; by left.
      * destruct (addSpot_absent w0 key (idx m 1) freqKhz (idx m 5)
                    (idx m 7) nowAdd Hk) as (Hiss & _).
        unfold issued in Hiss. rewrite Hiss.
        intros [= -> ->]%list_elem_of_singleton. eexists; by left.
    + unfold issued, sendToFlex. rewrite Hp. prog_simpl. rewrite drop_all.
      by intros ?%elem_of_nil.
  - destruct (processLine_nonspot w line nowAdd nowSweep Hm) as (_ & _ & Hr).
    unfold issued. fold (exec (processLine line nowAdd nowSweep) w).
    rewrite Hr, drop_all. by intros ?%elem_of_nil.
Qed.

(** X: with the QRT toggle off no run ever sends a "spot remove":
    every command is an add or an update. *)
Theorem no_removal_without_qrt :
  forall (lines : list (string * Time * Time)) w (cmd : string)
         (res : CmdResult),
    QRT (cfg w) = false ->
    (cmd, res) ∈ issued (readLines lines) w ->
    isAddOrSet cmd.
Proof.
  induction lines as [|[[line t1] t2] lines IH]; intros w cmd res Hq.
  - unfold issued, exec. cbn. rewrite drop_all. by intros ?%elem_of_nil.
  - rewrite readLines_issued_cons.
    intros [Hin|Hin]%elem_of_app.
    + by eapply processLine_no_removal.
    + eapply IH; [|exact Hin].
      destruct (processLine_trace w line t1 t2) as (-> & _). exact Hq.
Qed.

(** X: deduplication from line to line.  A spot line creates the
    entry of its key (the add is accepted with id [n], and the sweep
    comes before the entry expires); the next spot line with the same
    key, whatever its frequency within the band and its comment,
    first sends a "spot set" carrying [n] and its own fields. *)
Theorem same_key_line_updates :
  forall w (line1 line2 : string) (m1 m2 : list string)
         (f1 f2 : float64) (t1 t2 t3 t4 : Time) (n : Z),
    FindStringSubmatch spotPattern line1 = Some m1 ->
    ParseFloat (idx m1 3) = inl f1 ->
    removalRequested (cfg w) m1 = false ->
    FindStringSubmatch spotPattern line2 = Some m2 ->
    ParseFloat (idx m2 3) = inl f2 ->
    removalRequested (cfg w) m2 = false ->
    keyOf (cfg w) f2 (idx m2 5) = keyOf (cfg w) f1 (idx m1 5) ->
    spotIds w !! keyOf (cfg w) f1 (idx m1 5) = None ->
    Error (answer w ("spot add " +:+ spotFields (cfg w) (idx m1 1) f1
                                       (idx m1 5) (idx m1 7))) = 0 ->
    Atoi (Message (answer w ("spot add " +:+ spotFields (cfg w) (idx m1 1)
                               f1 (idx m1 5) (idx m1 7)))) = inl n ->
    t2 <= t1 + Timeout (cfg w) ->
    exists r1 r2 rest,
      issued (processLine line1 t1 t2) w
      = [("spot add " +:+ spotFields (cfg w) (idx m1 1) f1 (idx m1 5)
                            (idx m1 7), r1)]
      /\ issued (processLine line2 t3 t4) (exec (processLine line1 t1 t2) w)
         = ("spot set " +:+ fmt_d n +:+ " "
            +:+ spotFields (cfg w) (idx m2 1) f2 (idx m2 5) (idx m2 7), r2)
           :: rest.
Proof.
  intros w line1 line2 m1 m2 f1 f2 t1 t2 t3 t4 n
    Hm1 Hp1 Hr1 Hm2 Hp2 Hr2 Hkey Habs H0 Hn Ht.
  set (key := keyOf (cfg w) f1 (idx m1 5)) in *.
  set (w0 := exec (logToConsole m1 false) w).
  destruct (logToConsole_frame w m1 false) as (Hc0 & Hi0 & Hf0 & _).
  fold w0 in Hc0, Hi0, Hf0.
  assert (Habs0 : spotIds w0 !! key = None) by by rewrite Hi0.
  destruct (addSpot_absent w0 key (idx m1 1) f1 (idx m1 5) (idx m1 7) t1
              Habs0) as (Hiss1 & Hcfg1 & Hids1).
  rewrite Hc0 in Hiss1, Hcfg1, Hids1.
  rewrite (answer_same_fc w w0 _ Hf0) in Hiss1, Hids1.
  rewrite H0, Hn in Hids1. cbn [Z.eqb] in Hids1.
  set (w1 := exec (processLine line1 t1 t2) w).
  assert (Hw1 : w1 = exec (cleanupSpots t2)
                       (exec (addSpot key (idx m1 1) f1 (idx m1 5)
                                (idx m1 7) t1) w0)).
  { subst w1. rewrite (processLine_spot _ _ _ _ _ Hm1), Hr1. fold w0.
    unfold exec at 2. rewrite (sendToFlex_key _ _ _ _ _ Hp1), Hc0.
    reflexivity. }
  assert (Hk1 : spotIds w1 !! key = Some (Spot n (t1 + Timeout (cfg w)))).
  { rewrite Hw1, cleanupSpots_lookup, Hids1, lookup_insert_eq. cbn [expires].
    destruct (Z.ltb_spec (t1 + Timeout (cfg w)) t2); [lia|done]. }
  assert (Hc1 : cfg w1 = cfg w).
  { subst w1. apply processLine_trace. }
  exists (answer w ("spot add " +:+ spotFields (cfg w) (idx m1 1) f1
                      (idx m1 5) (idx m1 7))).
  set (w10 := exec (logToConsole m2 false) w1).
  destruct (logToConsole_frame w1 m2 false) as (Hc10 & Hi10 & _ & _).
  fold w10 in Hc10, Hi10.
  assert (Hk10 : spotIds w10 !! key = Some (Spot n (t1 + Timeout (cfg w))))
    by by rewrite Hi10.
  destruct (addSpot_present w10 key (idx m2 1) f2 (idx m2 5) (idx m2 7) t3
              _ Hk10) as (Hiss2 & _).
  cbn [id] in Hiss2. rewrite Hc10, Hc1 in Hiss2.
  eexists _, _. split.
  - rewrite (processLine_issued _ _ _ _ _ Hm1), Hr1. fold w0.
    unfold issued. rewrite (sendToFlex_key _ _ _ _ _ Hp1), Hc0.
    exact Hiss1.
  - rewrite (processLine_issued _ _ _ _ _ Hm2), Hc1, Hr2. fold w10.
    unfold issued. rewrite (sendToFlex_key _ _ _ _ _ Hp2), Hc10, Hc1, Hkey.
    exact Hiss2.
Qed.

End Runs.

(** * Bands in order *)

(** X: the band never goes down when the frequency goes up: for
    [f1 <= f2] the edge chosen for [f1] is not after the one chosen for
    [f2] in the table. *)
Theorem getBand_monotone :
  forall f1 f2 : float64,
    Float64.geb f2 f1 = true ->
    (getBand_index f1 <= getBand_index f2)%nat.
Proof.
  intros f1 f2 Hle.
  assert (Hlen : (0 < length bandEdges)%nat) by (simpl; lia).
  pose proof (getBand_loop_in_range bandEdges f1 Hlen) as Hr1.
  destruct (Nat.le_gt_cases (getBand_index f1) (getBand_index f2))
    as [|Hgt]; [done|]. exfalso.
  destruct (getBand_loop_spec bandEdges f1 (length bandEdges) 0)
    as (_ & Hbelow & _); [lia|lia|].
  assert (H1 : Float64.geb f1 (minFreq (edgeAt bandEdges (getBand_index f1)))
               = true).
  { apply Hbelow. unfold getBand_index in *. lia. }
  pose proof (getBand_loop_above bandEdges f2 bandEdges_ascending Hlen
                (getBand_index f1)) as H2.
  rewrite (geb_trans _ _ _ Hle H1) in H2.
  unfold getBand_index in *. discriminate H2. lia.
Qed.

(** * Prompt hints and plain lines *)

Lemma list_ascii_of_string_app (s t : string) :
  list_ascii_of_string (s +:+ t)
  = (list_ascii_of_string s ++ list_ascii_of_string t)%list.
Proof. induction s as [|c s IH]; [done|]. simpl. by f_equal. Qed.

Lemma string_of_list_ascii_app (a b : list ascii) :
  string_of_list_ascii (a ++ b)
  = string_of_list_ascii a +:+ string_of_list_ascii b.
Proof.
  induction a as [|c a IH]; [done|].
  change (String c (string_of_list_ascii (a ++ b))
          = String c (string_of_list_ascii a +:+ string_of_list_ascii b)).
  by rewrite IH.
Qed.

Lemma String_length_list (s : string) :
  String.length s = length (list_ascii_of_string s).
Proof. induction s as [|c s IH]; [done|]. simpl. by f_equal. Qed.

Lemma HasSuffix_spec (s suffix : string) :
  HasSuffix s suffix = true
  <-> exists body : list ascii,
        list_ascii_of_string s = (body ++ list_ascii_of_string suffix)%list.
Proof.
  unfold HasSuffix. rewrite andb_true_iff, !bool_decide_eq_true. split.
  - intros [Hlen Hdrop].
    exists (take (length (list_ascii_of_string s)
                  - length (list_ascii_of_string suffix))
              (list_ascii_of_string s)).
    set (cs := list_ascii_of_string s) in *.
    set (k := (length cs - length (list_ascii_of_string suffix))%nat) in *.
    rewrite <- Hdrop. by rewrite take_drop.
  - intros [body ->]. rewrite length_app. split; [lia|].
    replace (length body + length (list_ascii_of_string suffix)
             - length (list_ascii_of_string suffix))%nat
      with (length body) by lia.
    by rewrite drop_app_length.
Qed.

Lemma TrimSuffix_app (body suffix : string) :
  TrimSuffix (body +:+ suffix) suffix = body.
Proof.
  unfold TrimSuffix.
  rewrite (proj2 (HasSuffix_spec (body +:+ suffix) suffix))
    by (eexists; apply list_ascii_of_string_app).
  rewrite list_ascii_of_string_app, length_app, String_length_list.
  replace (length (list_ascii_of_string body)
           + length (list_ascii_of_string suffix)
           - length (list_ascii_of_string suffix))%nat
    with (length (list_ascii_of_string body)) by lia.
  by rewrite take_app_length, string_of_list_ascii_of_string.
Qed.

(** A text that ends with [suffix] does not end with a text whose last
    characters differ from those of [suffix]. *)
Lemma HasSuffix_other (body suffix other : string) :
  (forall a b : list ascii,
     (a ++ list_ascii_of_string suffix)%list
     = (b ++ list_ascii_of_string other)%list -> False) ->
  HasSuffix (body +:+ suffix) other = false.
Proof.
  intros Hne. destruct (HasSuffix _ other) eqn:Hs; [|done].
  apply HasSuffix_spec in Hs as [b Hb].
  rewrite list_ascii_of_string_app in Hb. by apply Hne in Hb.
Qed.

(** The last characters of two equal texts agree. *)
Ltac last_chars H :=
  apply (f_equal (@rev ascii)) in H; rewrite !rev_app_distr in H;
  cbn in H; try discriminate H;
  repeat (injection H as ? H; try discriminate).

Section Prompts.
Context {R : Type} `{!FlexClient R}.
Implicit Types (w : World R).

(** The loop over the suffixes takes the suffix the line ends with. *)
Lemma promptLoop_suffix w (body suffix : string) :
  suffix ∈ promptSuffixes ->
  promptLoop (body +:+ suffix) promptSuffixes w
  = (true, exec (setPrompt (Render FgMagenta body +:+ "> ")) w).
Proof.
  unfold promptSuffixes.
  rewrite !elem_of_cons, elem_of_nil.
  intros [->|[->|[->|[->|[]]]]]; cbn [promptLoop].
  - rewrite (proj2 (HasSuffix_spec _ _))
      by (eexists; apply list_ascii_of_string_app).
    by rewrite TrimSuffix_app.
  - rewrite (HasSuffix_other body "> " ">")
      by (intros a b H; last_chars H).
    rewrite (proj2 (HasSuffix_spec _ "> "))
      by (eexists; apply list_ascii_of_string_app).
    by rewrite TrimSuffix_app.
  - rewrite (HasSuffix_other body ":" ">")
      by (intros a b H; last_chars H).
    rewrite (HasSuffix_other body ":" "> ")
      by (intros a b H; last_chars H).
    rewrite (proj2 (HasSuffix_spec _ ":"))
      by (eexists; apply list_ascii_of_string_app).
    by rewrite TrimSuffix_app.
  - rewrite (HasSuffix_other body ": " ">")
      by (intros a b H; last_chars H).
    rewrite (HasSuffix_other body ": " "> ")
      by (intros a b H; last_chars H).
    rewrite (HasSuffix_other body ": " ":")
      by (intros a b H; last_chars H).
    rewrite (proj2 (HasSuffix_spec _ ": "))
      by (eexists; apply list_ascii_of_string_app).
    by rewrite TrimSuffix_app.
Qed.

Lemma promptLoop_none w (line : string) (suffixes : list string) :
  (forall suffix, suffix ∈ suffixes -> HasSuffix line suffix = false) ->
  promptLoop line suffixes w = (false, w).
Proof.
  induction suffixes as [|suffix suffixes IH]; intros Hno; cbn; [done|].
  rewrite Hno by apply list_elem_of_here.
  apply IH. intros s Hs. apply Hno. by apply list_elem_of_further.
Qed.

(** X: a prompt hint.  A line that is not a spot and ends with ">",
    "> ", ":" or ": " becomes the console prompt: the text before that
    ending, in magenta, followed by "> ".  It is not printed and
    nothing is logged. *)
Theorem prompt_line_sets_prompt :
  forall w (body suffix : string) (nowAdd nowSweep : Time),
    suffix ∈ promptSuffixes ->
    FindStringSubmatch spotPattern (body +:+ suffix) = None ->
    let w' := exec (processLine (body +:+ suffix) nowAdd nowSweep) w in
    prompt w' = Render FgMagenta body +:+ "> "
    /\ stdout w' = stdout w
    /\ logs w' = logs w.
Proof.
  intros w body suffix nowAdd nowSweep Hs Hm w'. subst w'.
  unfold processLine. rewrite Hm, exec_bind.
  rewrite (promptLoop_suffix w body suffix Hs). cbn [fst snd negb].
  unfold exec. prog_simpl. done.
Qed.

(** X: a plain line.  A line that is not a spot and has none of the
    four endings is printed as it is, once; the prompt stays. *)
Theorem plain_line_is_printed :
  forall w (line : string) (nowAdd nowSweep : Time),
    FindStringSubmatch spotPattern line = None ->
    (forall body suffix, suffix ∈ promptSuffixes ->
                         line <> body +:+ suffix) ->
    let w' := exec (processLine line nowAdd nowSweep) w in
    stdout w' = (stdout w ++ [line])%list
    /\ prompt w' = prompt w
    /\ logs w' = logs w.
Proof.
  intros w line nowAdd nowSweep Hm Hno w'. subst w'.
  unfold processLine. rewrite Hm, exec_bind.
  rewrite promptLoop_none.
  - cbn [fst snd negb]. unfold exec. prog_simpl. done.
  - intros suffix Hs. destruct (HasSuffix line suffix) eqn:Hh; [|done].
    apply HasSuffix_spec in Hh as [body Hb]. exfalso.
    apply (Hno (string_of_list_ascii body) suffix Hs).
    rewrite <- (string_of_list_ascii_of_string line), Hb.
    by rewrite string_of_list_ascii_app, string_of_list_ascii_of_string.
Qed.

End Prompts.

(** * The anatomy of a spot line *)

(** A repetition consumes characters of its class, at least [min] and at
    most [max] of them counting those before. *)
Lemma rep_sound_bounds (cls : ascii -> bool) (min : nat) (max : option nat)
    (greedy : bool) (k : cont) (s : list ascii) :
  forall n prev pos caps r,
    rep cls min max greedy k n prev pos s caps = Some r ->
    exists taken rest prev',
      s = (taken ++ rest)%list
      /\ forallb cls taken = true
      /\ (min <= n + length taken)%nat
      /\ (forall mx, max = Some mx -> taken = [] \/ (n + length taken <= mx)%nat)
      /\ k prev' (pos + length taken)%nat rest caps = Some r.
Proof.
  induction s as [|c s IH]; intros n prev pos caps r.
  - cbn. intros H.
    destruct (Nat.leb_spec min n) as [Hle|Hgt]; [|by destruct greedy].
    assert (Hk : k prev pos [] caps = Some r).
    { destruct greedy; [exact H|].
      destruct (k prev pos [] caps); by simplify_eq. }
    exists [], [], prev. cbn. rewrite !Nat.add_0_r. repeat split; auto.
  - cbn [rep]. intros H.
    assert (Hstop : (if (min <=? n)%nat then k prev pos (c :: s) caps else None)
                    = Some r ->
            exists taken rest prev',
              c :: s = (taken ++ rest)%list /\ forallb cls taken = true
              /\ (min <= n + length taken)%nat
              /\ (forall mx, max = Some mx ->
                             taken = [] \/ (n + length taken <= mx)%nat)
              /\ k prev' (pos + length taken)%nat rest caps = Some r).
    { intros Hk. destruct (Nat.leb_spec min n); [|done].
      exists [], (c :: s), prev. cbn. rewrite !Nat.add_0_r.
      repeat split; auto. }
    assert (Hmore : (if cls c && below n max
                     then rep cls min max greedy k (S n) (Some c) (S pos) s caps
                     else None) = Some r ->
            exists taken rest prev',
              c :: s = (taken ++ rest)%list /\ forallb cls taken = true
              /\ (min <= n + length taken)%nat
              /\ (forall mx, max = Some mx ->
                             taken = [] \/ (n + length taken <= mx)%nat)
              /\ k prev' (pos + length taken)%nat rest caps = Some r).
    { intros Hk. destruct (cls c) eqn:Hc; [|done].
      destruct (below n max) eqn:Hb; [|done]. cbn [andb] in Hk.
      apply IH in Hk as (taken & rest & prev' & -> & Hall & Hmin & Hmax & Hk).
      exists (c :: taken), rest, prev'. cbn. rewrite Hc, Hall.
      rewrite <- !Nat.add_succ_comm. repeat split; auto.
      intros mx ->. right. cbn in Hb. apply Nat.ltb_lt in Hb.
      destruct (Hmax mx eq_refl) as [->|]; cbn; lia. }
    destruct greedy.
    + destruct (if cls c && below n max then _ else _) as [r'|] eqn:Hm.
      * apply Hmore. by rewrite H.
      * by apply Hstop.
    + destruct (if (min <=? n)%nat then _ else _) as [r'|] eqn:Hs.
      * apply Hstop. by rewrite H.
      * by apply Hmore.
Qed.

Lemma slice_eq (cs a b c : list ascii) (p q : nat) :
  cs = (a ++ b ++ c)%list -> p = length a -> q = (p + length b)%nat ->
  slice cs p q = string_of_list_ascii b.
Proof.
  intros -> -> ->. unfold slice.
  replace (length a + length b - length a)%nat with (length b) by lia.
  by rewrite drop_app_length, take_app_length.
Qed.

(** One literal character of the pattern. *)
Ltac lit_step H :=
  rewrite rep_once in H;
  match type of H with
  | match ?s with _ => _ end = _ =>
      destruct s as [|? ?]; [discriminate H|]
  end;
  match type of H with
  | (if Ascii.eqb ?a ?b then _ else _) = _ =>
      destruct (Ascii.eqb_spec a b) as [<-|]; [|discriminate H]
  end;
  cbn [runWith] in H.

(** A group is the text between its two boundaries. *)
Tactic Notation "slice_goal" constr(a) constr(c) :=
  apply (slice_eq _ a _ c);
  [ cbn [app list_ascii_of_string]; rewrite <- ?app_assoc;
    cbn [app]; reflexivity
  | rewrite ?length_app; cbn [length list_ascii_of_string]; lia
  | rewrite ?length_app; cbn [length list_ascii_of_string]; lia ].

Local Abbreviation DXde := (list_ascii_of_string "DX de ").
Local Abbreviation Zed := (cons "Z"%char nil).

(** A match of [spotPattern]: the line starts with "DX de " and the
    pieces that follow, the groups are these pieces, and each piece is
    made of the characters of its class. *)
Lemma spotPattern_anatomy (line : string) (m : list string) :
  FindStringSubmatch spotPattern line = Some m ->
  exists spotter colon sp1 freq sp2 dx sp3 comment sp4 digits rest : list ascii,
    list_ascii_of_string line
    = (list_ascii_of_string "DX de " ++ spotter ++ colon ++ sp1 ++ freq
       ++ sp2 ++ dx ++ sp3 ++ comment ++ sp4 ++ digits ++ ["Z"%char] ++ rest)%list
    /\ m = map string_of_list_ascii
             [(list_ascii_of_string "DX de " ++ spotter ++ colon ++ sp1 ++ freq
               ++ sp2 ++ dx ++ sp3 ++ comment ++ sp4 ++ digits
               ++ ["Z"%char])%list;
              spotter; (colon ++ sp1)%list; freq; sp2; dx; sp3; comment; sp4;
              (digits ++ ["Z"%char])%list]
    /\ (spotter <> [] /\ forallb notSpace spotter = true)
    /\ forallb isSpace sp1 = true
    /\ (freq <> [] /\ forallb isDigitOrDot freq = true)
    /\ (sp2 <> [] /\ forallb isSpace sp2 = true)
    /\ (dx <> [] /\ forallb notSpace dx = true)
    /\ (sp3 <> [] /\ forallb isSpace sp3 = true)
    /\ forallb notNewline comment = true
    /\ forallb isSpace sp4 = true
    /\ (length digits = 4%nat /\ forallb isDigit digits = true).
Proof.
  unfold FindStringSubmatch.
  set (cs := list_ascii_of_string line).
  destruct (search spotPattern None 0 cs) as [[i [j caps]]|] eqn:Hs; [|done].
  intros [= <-].
  apply search_begin in Hs as (_ & -> & H).
  unfold run in H.
  cbn [app lits list_ascii_of_string map runWith Nat.eqb] in H.
  unfold lit in H. cbn [runWith] in H.
  clearbody cs.
  do 6 lit_step H.
  apply rep_sound_bounds in H
    as (spotter & ? & ? & -> & Hspotter & Hmin1 & _ & H).
  cbn [runWith] in H.
  apply rep_sound_bounds in H as (colon & ? & ? & -> & _ & _ & _ & H).
  apply rep_sound_bounds in H as (sp1 & ? & ? & -> & Hsp1 & _ & _ & H).
  cbn [runWith] in H.
  apply rep_sound_bounds in H as (freq & ? & ? & -> & Hfreq & Hmin3 & _ & H).
  cbn [runWith] in H.
  apply rep_sound_bounds in H as (sp2 & ? & ? & -> & Hsp2 & Hmin4 & _ & H).
  cbn [runWith] in H.
  apply rep_sound_bounds in H as (dx & ? & ? & -> & Hdx & Hmin5 & _ & H).
  cbn [runWith] in H.
  apply rep_sound_bounds in H as (sp3 & ? & ? & -> & Hsp3 & Hmin6 & _ & H).
  cbn [runWith] in H.
  apply rep_sound_bounds in H as (comment & ? & ? & -> & Hcomment & _ & _ & H).
  cbn [runWith] in H.
  apply rep_sound_bounds in H as (sp4 & ? & ? & -> & Hsp4 & _ & _ & H).
  cbn [runWith] in H.
  apply rep_sound_bounds in H
    as (digits & ? & ? & -> & Hdigits & Hmin9 & Hmax9 & H).
  lit_step H.
  injection H as <- <-.
  exists spotter, colon, sp1, freq, sp2, dx, sp3, comment, sp4, digits.
  eexists. split; [reflexivity|].
  assert (Hnil : forall l : list ascii, (1 <= 0 + length l)%nat -> l <> [])
    by (intros [|? ?]; cbn; [lia|done]).
  split; [|repeat split; auto].
  - cbn [rev app groups map].
    repeat match goal with |- _ :: _ = _ :: _ => f_equal end.
    + slice_goal (@nil ascii) x1.
    + slice_goal DXde (colon ++ sp1 ++ freq ++ sp2 ++ dx ++ sp3 ++ comment
                        ++ sp4 ++ digits ++ Zed ++ x1)%list.
    + slice_goal (DXde ++ spotter)%list
        (freq ++ sp2 ++ dx ++ sp3 ++ comment ++ sp4 ++ digits ++ Zed ++ x1)%list.
    + slice_goal (DXde ++ spotter ++ colon ++ sp1)%list
        (sp2 ++ dx ++ sp3 ++ comment ++ sp4 ++ digits ++ Zed ++ x1)%list.
    + slice_goal (DXde ++ spotter ++ colon ++ sp1 ++ freq)%list
        (dx ++ sp3 ++ comment ++ sp4 ++ digits ++ Zed ++ x1)%list.
    + slice_goal (DXde ++ spotter ++ colon ++ sp1 ++ freq ++ sp2)%list
        (sp3 ++ comment ++ sp4 ++ digits ++ Zed ++ x1)%list.
    + slice_goal (DXde ++ spotter ++ colon ++ sp1 ++ freq ++ sp2 ++ dx)%list
        (comment ++ sp4 ++ digits ++ Zed ++ x1)%list.
    + slice_goal (DXde ++ spotter ++ colon ++ sp1 ++ freq ++ sp2 ++ dx
                  ++ sp3)%list
        (sp4 ++ digits ++ Zed ++ x1)%list.
    + slice_goal (DXde ++ spotter ++ colon ++ sp1 ++ freq ++ sp2 ++ dx
                  ++ sp3 ++ comment)%list
        (digits ++ Zed ++ x1)%list.
    + slice_goal (DXde ++ spotter ++ colon ++ sp1 ++ freq ++ sp2 ++ dx
                  ++ sp3 ++ comment ++ sp4)%list x1.
  - destruct (Hmax9 4%nat eq_refl) as [->|]; cbn in *; lia.
Qed.

(** X: the groups of a spot line put the matched text back together.
    Every match has the ten entries [m[0]] to [m[9]]; [m[0]] is
    "DX de " followed by the nine groups in order, and the line starts
    with [m[0]]: the echo of [logToConsole] loses no character. *)
Theorem spot_match_reassembles :
  forall (line : string) (m : list string),
    FindStringSubmatch spotPattern line = Some m ->
    length m = 10%nat
    /\ idx m 0 = "DX de " +:+ idx m 1 +:+ idx m 2 +:+ idx m 3 +:+ idx m 4
                 +:+ idx m 5 +:+ idx m 6 +:+ idx m 7 +:+ idx m 8 +:+ idx m 9
    /\ exists rest : string, line = idx m 0 +:+ rest.
Proof.
  intros line m Hm.
  apply spotPattern_anatomy in Hm
    as (spotter & colon & sp1 & freq & sp2 & dx & sp3 & comment & sp4 & digits
        & rest & Hline & -> & _).
  split; [reflexivity|]. cbn [map idx nth]. split.
  - change "DX de "
      with (string_of_list_ascii (list_ascii_of_string "DX de ")) at 2.
    rewrite <- !string_of_list_ascii_app. f_equal.
    by rewrite <- !app_assoc.
  - exists (string_of_list_ascii rest).
    rewrite <- string_of_list_ascii_app.
    rewrite <- (string_of_list_ascii_of_string line), Hline.
    f_equal. by rewrite <- !app_assoc.
Qed.

(** X: the fields of a spot line.  The spotter and the DX call are not
    empty and hold no white space; the frequency text is not empty and
    made of digits and points; the separators after the frequency and
    after the DX call are non-empty white space; the comment holds no
    line feed; the time is four digits and the letter Z. *)
Theorem spot_match_fields :
  forall (line : string) (m : list string),
    FindStringSubmatch spotPattern line = Some m ->
    (idx m 1 <> "" /\ forallb notSpace (list_ascii_of_string (idx m 1)) = true)
    /\ (idx m 3 <> ""
        /\ forallb isDigitOrDot (list_ascii_of_string (idx m 3)) = true)
    /\ (idx m 4 <> "" /\ forallb isSpace (list_ascii_of_string (idx m 4)) = true)
    /\ (idx m 5 <> "" /\ forallb notSpace (list_ascii_of_string (idx m 5)) = true)
    /\ (idx m 6 <> "" /\ forallb isSpace (list_ascii_of_string (idx m 6)) = true)
    /\ forallb notNewline (list_ascii_of_string (idx m 7)) = true
    /\ forallb isSpace (list_ascii_of_string (idx m 8)) = true
    /\ exists digits : list ascii,
         idx m 9 = string_of_list_ascii digits +:+ "Z"
         /\ length digits = 4%nat /\ forallb isDigit digits = true.
Proof.
  intros line m Hm.
  apply spotPattern_anatomy in Hm
    as (spotter & colon & sp1 & freq & sp2 & dx & sp3 & comment & sp4 & digits
        & rest & _ & -> & [Hs1 Hs2] & _ & [Hf1 Hf2] & [Ha1 Ha2] & [Hd1 Hd2]
        & [Hb1 Hb2] & Hc & Hsp4 & Hdig).
  assert (Hne : forall l : list ascii, l <> [] -> string_of_list_ascii l <> "")
    by (intros [|? ?]; done).
  cbn [map idx nth]. rewrite !list_ascii_of_string_of_list_ascii.
  repeat split; auto.
  exists digits. by rewrite string_of_list_ascii_app.
Qed.

Section LegacyVariant.
Context {R : Type} `{!FlexClient R}.
Implicit Types (w : World R) (key : spotKey).

(** X: the variant without a registry sends one "spot add" for every
    spot line whose frequency parses, removal request or not, and
    logs the answer unless its code is 0; for a key that the registry
    does not hold, [addSpot] sends exactly that command. *)
Theorem legacy_line_is_one_add :
  forall w (m : list string) (remove : bool) (freqKhz : float64) key
         (now : Time),
    ParseFloat (idx m 3) = inl freqKhz ->
    spotIds w !! key = None ->
    let cmd := "spot add " +:+ spotFields (cfg w) (idx m 1) freqKhz
                                 (idx m 5) (idx m 7) in
    issued (Legacy.sendToFlex m remove) w = [(cmd, answer w cmd)]
    /\ logs (exec (Legacy.sendToFlex m remove) w)
       = (logs w ++ if Error (answer w cmd) =? 0 then []
                    else [LogRPC (Error (answer w cmd))
                            (Message (answer w cmd))])%list
    /\ issued (addSpot key (idx m 1) freqKhz (idx m 5) (idx m 7) now) w
       = issued (Legacy.sendToFlex m remove) w.
Proof.
  intros w m remove freqKhz key now Hp Hk cmd.
  assert (Hleg : issued (Legacy.sendToFlex m remove) w = [(cmd, answer w cmd)]
          /\ logs (exec (Legacy.sendToFlex m remove) w)
             = (logs w ++ if Error (answer w cmd) =? 0 then []
                          else [LogRPC (Error (answer w cmd))
                                  (Message (answer w cmd))])%list).
  { unfold Legacy.sendToFlex. rewrite Hp. prog_simpl. fold cmd.
    destruct (SendAndWait (fc w) cmd) as [res radio]; cbn [fst snd].
    destruct (Error res =? 0); cbn [negb]; prog_simpl;
      rewrite drop_issued, ?app_nil_r; done. }
  destruct Hleg as [Hiss Hlogs]. split; [exact Hiss|]. split; [exact Hlogs|].
  rewrite Hiss.
  apply (addSpot_absent w key (idx m 1) freqKhz (idx m 5) (idx m 7) now Hk).
Qed.

End LegacyVariant.

(** * The band of a parsed frequency *)

Lemma readDecimal_nonneg (s : list ascii) :
  forall mant frac sawdigits sawdot mant' frac',
    0 <= mant ->
    readDecimal s mant frac sawdigits sawdot = Some (mant', frac') ->
    0 <= mant'.
Proof.
  induction s as [|c s IH]; intros mant frac sd sdot mant' frac' Hm; cbn.
  - destruct sd; [|done]. by intros [= <- <-].
  - destruct (isDigit c) eqn:Hd.
    + apply IH. unfold isDigit, digitVal in *.
      apply andb_true_iff in Hd as [Hd _]. apply Z.leb_le in Hd. lia.
    + destruct (Ascii.eqb c "." && negb sdot); [by apply IH | done].
Qed.

Lemma round64_nonneg (q f : Q) :
  0 <= Qnum q -> Float64.round64 q = Float64.Fin f -> (0 <= f)%Q.
Proof.
  intros Hn. unfold Float64.round64.
  destruct (Z.eqb_spec (Qnum q) 0) as [|Hne]; [by intros [= <-]|].
  destruct (Z.ltb_spec (Qnum q) 0); [lia|].
  set (a := Z.abs (Qnum q)).
  set (ex := Z.max (Float64.ilog2 a (Z.pos (Qden q)) - 52) (-1074)).
  set (num := a * 2 ^ Z.max 0 (- ex)).
  set (den := Z.pos (Qden q) * 2 ^ Z.max 0 ex).
  match goal with
  | |- context [if ?b then num / den + 1 else num / den] =>
      set (m' := if b then num / den + 1 else num / den)
  end.
  destruct (Qle_bool _ _); [done|]. intros [= <-].
  rewrite Qred_correct. unfold Qle. cbn [Qnum Qden].
  assert (0 <= num / den).
  { apply Z.div_pos; subst num den a.
    - apply Z.mul_nonneg_nonneg; [lia|]. apply Z.pow_nonneg. lia.
    - apply Z.mul_pos_pos; [lia|]. apply Z.pow_pos_nonneg; lia. }
  assert (0 <= m').
  { subst m'. match goal with |- context [if ?b then _ else _] =>
      destruct b end; lia. }
  assert (0 <= 2 ^ Z.max 0 ex) by (apply Z.pow_nonneg; lia).
  nia.
Qed.

Lemma ParseFloat_nonneg (s : string) (f : float64) :
  ParseFloat s = inl f -> exists q : Q, f = Float64.Fin q /\ (0 <= q)%Q.
Proof.
  unfold ParseFloat.
  destruct (readDecimal _ 0 0 false false) as [[mant frac]|] eqn:Hr; [|done].
  apply readDecimal_nonneg in Hr; [|lia].
  destruct (Float64.round64 _) as [| |q] eqn:Hq; try done.
  intros [= <-]. exists q. split; [done|].
  by apply round64_nonneg in Hq.
Qed.

(** From the first threshold on, the edge that the loop stops at is the
    greatest one at most the frequency. *)
Lemma getBand_greatest (f : float64) :
  Float64.geb f (minFreq (edgeAt bandEdges 0)) = true ->
  greatestEdgeBelow f (edgeAt bandEdges (getBand_index f)).
Proof.
  intros H0.
  assert (Hlen : (0 < length bandEdges)%nat) by (simpl; lia).
  pose proof (getBand_loop_in_range bandEdges f Hlen) as Hr.
  split; [by apply elem_edgeAt|]. split.
  - by apply getBand_loop_below.
  - intros e' [j [Hj <-]]%edgeAt_elem Hle.
    apply bandEdges_ascending. split; [|exact Hr].
    destruct (Nat.le_gt_cases j (getBand_index f)) as [|Hgt]; [done|].
    rewrite (getBand_loop_above bandEdges f bandEdges_ascending Hlen j) in Hle;
      [done | unfold getBand_index in Hgt; lia].
Qed.

(** X: the frequency of a spot line, once parsed, is a finite number
    that is not negative, so its band is always the band of the
    greatest threshold at most the frequency: the fallback to the first
    band for want of a threshold never decides the key of a spot. *)
Theorem parsed_frequency_has_band :
  forall (line : string) (m : list string) (freqKhz : float64),
    FindStringSubmatch spotPattern line = Some m ->
    ParseFloat (idx m 3) = inl freqKhz ->
    (exists q : Q, freqKhz = Float64.Fin q /\ (0 <= q)%Q)
    /\ exists e : bandEdge,
         greatestEdgeBelow freqKhz e /\ getBand freqKhz = name e.
Proof.
  intros line m freqKhz _ Hp.
  destruct (ParseFloat_nonneg _ _ Hp) as (q & -> & Hq).
  split; [by exists q|].
  exists (edgeAt bandEdges (getBand_index (Float64.Fin q))).
  split; [|reflexivity].
  apply getBand_greatest. cbn. by apply Qle_bool_iff.
Qed.

(** * The further properties at worked inputs *)

(** The add of [event1] accepted with id 7. *)
Lemma addSpot_creates_entry_witness :
  spotIds (exec (addSpot key20m "K1ABC" (Float64.of_Z 14025) "W1XYZ" "CQ"
                   (100 * Second)) steadyWorld)
  = <[key20m := Spot 7 (100 * Second + Timeout (cfg steadyWorld))]>
      (spotIds steadyWorld).
Proof.
  exact (proj1 (addSpot_creates_entry steadyWorld key20m "K1ABC"
                  (Float64.of_Z 14025) "W1XYZ" "CQ" (100 * Second) 7
                  ltac:(vm_compute; reflexivity)
                  ltac:(vm_compute; reflexivity)
                  ltac:(vm_compute; reflexivity))).
Defined.

(** An update of the entry of [expiringWorld], accepted. *)
Lemma addSpot_refreshes_entry_witness :
  spotIds (exec (addSpot key20m "K1ABC" (Float64.of_Z 14030) "W1XYZ" "CQ"
                   (160 * Second)) expiringWorld)
  = <[key20m := Spot 1 (160 * Second + Timeout (cfg expiringWorld))]>
      (spotIds expiringWorld).
Proof.
  exact (proj1 (addSpot_refreshes_entry expiringWorld key20m "K1ABC"
                  (Float64.of_Z 14030) "W1XYZ" "CQ" (160 * Second)
                  (Spot 1 (100 * Second))
                  ltac:(vm_compute; reflexivity)
                  ltac:(vm_compute; reflexivity))).
Defined.

(** An event on 40 m leaves the entry on 20 m alone. *)
Lemma other_keys_untouched_witness :
  spotIds (exec (addSpot key40m "K1ABC" (Float64.of_Z 7010) "W1XYZ" "CQ"
                   (160 * Second)) expiringWorld) !! key20m
  = spotIds expiringWorld !! key20m.
Proof.
  exact (proj1 (other_keys_untouched expiringWorld key40m key20m "K1ABC"
                  (Float64.of_Z 7010) "W1XYZ" "CQ" (160 * Second)
                  ltac:(discriminate))).
Defined.

(** The entry of [expiringWorld] keeps id 1 through an update. *)
Lemma addSpot_keeps_id_witness :
  exists e : Time,
    spotIds (exec (addSpot key20m "K1ABC" (Float64.of_Z 14030) "W1XYZ" "CQ"
                     (160 * Second)) expiringWorld) !! key20m
    = Some (Spot 1 e)
    /\ (e = 100 * Second \/ e = 160 * Second + Timeout (cfg expiringWorld)).
Proof.
  exact (addSpot_keeps_id expiringWorld key20m "K1ABC" (Float64.of_Z 14030)
           "W1XYZ" "CQ" (160 * Second) (Spot 1 (100 * Second))
           ltac:(vm_compute; reflexivity)).
Defined.

(** [event1]: added at 100 s, swept at 101 s, timeout 300 s. *)
Lemma fresh_entry_survives_sweep_witness :
  spotIds (exec (handleEvent key20m event1) steadyWorld) !! key20m
  = if ev_nowSweep event1 <=? ev_nowAdd event1 + Timeout (cfg steadyWorld)
    then Some (Spot 7 (ev_nowAdd event1 + Timeout (cfg steadyWorld)))
    else None.
Proof.
  exact (fresh_entry_survives_sweep steadyWorld key20m event1 7
           ltac:(vm_compute; reflexivity)
           ltac:(vm_compute; reflexivity)
           ltac:(vm_compute; reflexivity)).
Defined.

(** After [spotLine1], swept at 101 s, the entry expires at 400 s. *)
Lemma spot_line_leaves_no_expired_entry_witness :
  101 * Second <= expires (Spot 7 (400 * Second)).
Proof.
  apply (spot_line_leaves_no_expired_entry steadyWorld spotLine1 spotMatch1
           (100 * Second) (101 * Second) spotLine1_match key20m).
  vm_compute. reflexivity.
Defined.

(** The line with the frequency text "14.025.0". *)
Lemma bad_frequency_line_witness :
  logs (exec (processLine badFreqLine (100 * Second) (101 * Second))
          expiringWorld)
  = (logs expiringWorld ++ [LogErr ErrSyntax; LogErr ErrSyntax])%list.
Proof.
  exact (proj1 (bad_frequency_line expiringWorld badFreqLine badFreqMatch
                  (100 * Second) (101 * Second) ErrSyntax
                  badFreqLine_match ltac:(vm_compute; reflexivity))).
Defined.

(** [qrtLine] with the key present: the entry is gone. *)
Lemma removal_line_deletes_entry_witness :
  spotIds (exec (processLine qrtLine (50 * Second) (51 * Second))
             expiringWorld)
    !! keyOf (cfg expiringWorld) (Float64.of_Z 14030) (idx qrtMatch 5)
  = None.
Proof.
  exact (proj1 (removal_line_deletes_entry expiringWorld qrtLine qrtMatch
                  (Float64.of_Z 14030) (50 * Second) (51 * Second)
                  qrtLine_match
                  ltac:(vm_compute; reflexivity)
                  ltac:(vm_compute; reflexivity))).
Defined.

(** [qrtLine] with the toggle off is sent as an add. *)
Lemma no_removal_without_qrt_witness :
  isAddOrSet
    "spot add rx_freq=14.030000 callsign=W1XYZ spotter_callsign=K1ABC comment=going QRT lifetime_seconds=300".
Proof.
  refine (no_removal_without_qrt [(qrtLine, 100 * Second, 101 * Second)]
            noQrtWorld _ (ok "7") ltac:(reflexivity) _).
  vm_compute. left.
Defined.

(** [spotLine1] then [spotLine2], both on 20 m for W1XYZ. *)
Lemma same_key_line_updates_witness :
  exists r1 r2 rest,
    issued (processLine spotLine1 (100 * Second) (101 * Second)) steadyWorld
    = [("spot add " +:+ spotFields (cfg steadyWorld) (idx spotMatch1 1)
                          (Float64.of_Z 14025) (idx spotMatch1 5)
                          (idx spotMatch1 7), r1)]
    /\ issued (processLine spotLine2 (160 * Second) (161 * Second))
         (exec (processLine spotLine1 (100 * Second) (101 * Second))
            steadyWorld)
       = ("spot set " +:+ fmt_d 7 +:+ " "
          +:+ spotFields (cfg steadyWorld)
                (idx ["DX de K1ABC: 14030.0 W1XYZ CQ 1235Z"; "K1ABC"; ": ";
                      "14030.0"; " "; "W1XYZ"; " "; "CQ"; " "; "1235Z"] 1)
                (Float64.of_Z 14030)
                (idx ["DX de K1ABC: 14030.0 W1XYZ CQ 1235Z"; "K1ABC"; ": ";
                      "14030.0"; " "; "W1XYZ"; " "; "CQ"; " "; "1235Z"] 5)
                (idx ["DX de K1ABC: 14030.0 W1XYZ CQ 1235Z"; "K1ABC"; ": ";
                      "14030.0"; " "; "W1XYZ"; " "; "CQ"; " "; "1235Z"] 7),
          r2)
         :: rest.
Proof.
  exact (same_key_line_updates steadyWorld spotLine1 spotLine2 spotMatch1
           ["DX de K1ABC: 14030.0 W1XYZ CQ 1235Z"; "K1ABC"; ": "; "14030.0";
            " "; "W1XYZ"; " "; "CQ"; " "; "1235Z"]
           (Float64.of_Z 14025) (Float64.of_Z 14030)
           (100 * Second) (101 * Second) (160 * Second) (161 * Second) 7
           spotLine1_match
           ltac:(vm_compute; reflexivity)
           ltac:(vm_compute; reflexivity)
           ltac:(vm_compute; reflexivity)
           ltac:(vm_compute; reflexivity)
           ltac:(vm_compute; reflexivity)
           ltac:(vm_compute; reflexivity)
           ltac:(vm_compute; reflexivity)
           ltac:(vm_compute; reflexivity)
           ltac:(vm_compute; reflexivity)
           ltac:(vm_compute; discriminate)).
Defined.

(** 14025 kHz and 14030 kHz. *)
Lemma getBand_monotone_witness :
  (getBand_index (Float64.of_Z 14025) <= getBand_index (Float64.of_Z 14030))%nat.
Proof.
  exact (getBand_monotone (Float64.of_Z 14025) (Float64.of_Z 14030)
           ltac:(vm_compute; reflexivity)).
Defined.

(** The login prompt of a cluster. *)
Lemma prompt_line_sets_prompt_witness :
  prompt (exec (processLine ("login" +:+ ": ") 0 0) expiringWorld)
  = Render FgMagenta "login" +:+ "> ".
Proof.
  exact (proj1 (prompt_line_sets_prompt expiringWorld "login" ": " 0 0
                  ltac:(vm_compute; repeat constructor)
                  ltac:(vm_compute; reflexivity))).
Defined.

(** A greeting. *)
Lemma plain_line_is_printed_witness :
  stdout (exec (processLine "hello there" 0 0) expiringWorld)
  = (stdout expiringWorld ++ ["hello there"])%list.
Proof.
  refine (proj1 (plain_line_is_printed expiringWorld "hello there" 0 0
                   ltac:(vm_compute; reflexivity) _)).
  intros body suffix Hs Heq.
  assert (Hh : HasSuffix "hello there" suffix = true).
  { apply HasSuffix_spec. exists (list_ascii_of_string body).
    rewrite Heq. apply list_ascii_of_string_app. }
  unfold promptSuffixes in Hs.
  rewrite !elem_of_cons, elem_of_nil in Hs.
  destruct Hs as [->|[->|[->|[->|[]]]]]; vm_compute in Hh; discriminate Hh.
Defined.

(** [spotLine1]. *)
Lemma spot_match_reassembles_witness :
  length spotMatch1 = 10%nat
  /\ idx spotMatch1 0
     = "DX de " +:+ idx spotMatch1 1 +:+ idx spotMatch1 2 +:+ idx spotMatch1 3
       +:+ idx spotMatch1 4 +:+ idx spotMatch1 5 +:+ idx spotMatch1 6
       +:+ idx spotMatch1 7 +:+ idx spotMatch1 8 +:+ idx spotMatch1 9
  /\ exists rest : string, spotLine1 = idx spotMatch1 0 +:+ rest.
Proof.
  exact (spot_match_reassembles spotLine1 spotMatch1 spotLine1_match).
Defined.

Lemma spot_match_fields_witness :
  idx spotMatch1 1 <> ""
  /\ forallb notSpace (list_ascii_of_string (idx spotMatch1 1)) = true.
Proof.
  exact (proj1 (spot_match_fields spotLine1 spotMatch1 spotLine1_match)).
Defined.

(** [spotLine1] in the variant without a registry. *)
Lemma legacy_line_is_one_add_witness :
  issued (Legacy.sendToFlex spotMatch1 true) steadyWorld
  = [("spot add " +:+ spotFields (cfg steadyWorld) (idx spotMatch1 1)
                        (Float64.of_Z 14025) (idx spotMatch1 5)
                        (idx spotMatch1 7),
      answer steadyWorld
        ("spot add " +:+ spotFields (cfg steadyWorld) (idx spotMatch1 1)
                           (Float64.of_Z 14025) (idx spotMatch1 5)
                           (idx spotMatch1 7)))].
Proof.
  exact (proj1 (legacy_line_is_one_add steadyWorld spotMatch1 true
                  (Float64.of_Z 14025) key20m (100 * Second)
                  ltac:(vm_compute; reflexivity)
                  ltac:(vm_compute; reflexivity))).
Defined.

Lemma parsed_frequency_has_band_witness :
  exists e : bandEdge,
    greatestEdgeBelow (Float64.of_Z 14025) e
    /\ getBand (Float64.of_Z 14025) = name e.
Proof.
  exact (proj2 (parsed_frequency_has_band spotLine1 spotMatch1
                  (Float64.of_Z 14025) spotLine1_match
                  ltac:(vm_compute; reflexivity))).
Defined.
